(** * include-fixer/tool/ClangIncludeFixer.cpp: the standalone driver

    A shallow embedding of [includeFixerMain]: option handling, the
    [-stdin] override, the two data sources ([-db=fixed] and [-db=yaml]),
    the reporting loop over the [Headers] set and the two ways the
    collected replacements are applied.

    Library code the driver calls (LLVM's [StringRef], [std::set], the
    clang tooling entry points) is modelled by its contract; the external
    collaborators (file system, standard input, the clang tool run) are
    fields of an environment record. *)

From Stdlib Require Import String Ascii List Bool Arith ZArith Lia Sorted.
Import ListNotations.
Local Open Scope string_scope.
Local Open Scope list_scope.

(* ===================================================================== *)
(** ** llvm::StringRef *)
(* ===================================================================== *)

Module StringRef.

(** [StringRef::find(char C)]; [None] stands for [npos]. *)
Fixpoint find (C : ascii) (Str : string) : option nat :=
  match Str with
  | EmptyString => None
  | String c Rest =>
      if Ascii.eqb c C then Some 0
      else match find C Rest with
           | Some Idx => Some (S Idx)
           | None => None
           end
  end.

(** [StringRef::find(StringRef Needle)]: index of the first occurrence. *)
Fixpoint find_str (Needle Str : string) : option nat :=
  if prefix Needle Str then Some 0
  else match Str with
       | EmptyString => None
       | String _ Rest =>
           match find_str Needle Rest with
           | Some Idx => Some (S Idx)
           | None => None
           end
       end.

(** [StringRef::drop_front(N)] (also [slice(N, npos)]). *)
Fixpoint drop_front (N : nat) (Str : string) : string :=
  match N, Str with
  | 0, _ => Str
  | S _, EmptyString => EmptyString
  | S N', String _ Rest => drop_front N' Rest
  end.

(** [StringRef::slice(0, End)]. *)
Definition take_front (End : nat) (Str : string) : string := substring 0 End Str.

(** [std::pair<StringRef, StringRef> StringRef::split(char Separator)]:
    around the first occurrence; the whole string and an empty one when
    the separator does not occur. *)
Definition split (Separator : ascii) (Str : string) : string * string :=
  match find Separator Str with
  | None => (Str, EmptyString)
  | Some Idx => (take_front Idx Str, drop_front (Idx + 1) Str)
  end.

(** The loop of [StringRef::split(SmallVectorImpl<StringRef> &A,
    StringRef Separator, int MaxSplit = -1, bool KeepEmpty = true)]:
    every piece before an occurrence is pushed, then the tail; with
    [KeepEmpty] the empty pieces and an empty tail are pushed too, so the
    empty string splits into one empty piece.  Each round drops at least
    the separator, hence the fuel of [split_into] is never used up. *)
Fixpoint split_loop (fuel : nat) (Separator Str : string) (A : list string)
  : list string :=
  match fuel with
  | 0 => A ++ [Str]
  | S fuel' =>
      match find_str Separator Str with
      | None => A ++ [Str]
      | Some Idx =>
          split_loop fuel' Separator
            (drop_front (Idx + String.length Separator) Str)
            (A ++ [take_front Idx Str])
      end
  end.

Definition split_into (Separator Str : string) : list string :=
  split_loop (S (String.length Str)) Separator Str [].

(** The default character set of [trim]: [" \t\n\v\f\r"]. *)
Definition is_space (c : ascii) : bool :=
  let n := nat_of_ascii c in
  Nat.eqb n 32 || Nat.eqb n 9 || Nat.eqb n 10 || Nat.eqb n 11
  || Nat.eqb n 12 || Nat.eqb n 13.

Fixpoint ltrim (Str : string) : string :=
  match Str with
  | EmptyString => EmptyString
  | String c Rest => if is_space c then ltrim Rest else Str
  end.

Fixpoint rtrim (Str : string) : string :=
  match Str with
  | EmptyString => EmptyString
  | String c Rest =>
      match rtrim Rest with
      | EmptyString => if is_space c then EmptyString else String c EmptyString
      | R => String c R
      end
  end.

(** [StringRef::trim()] is [ltrim().rtrim()]. *)
Definition trim (Str : string) : string := rtrim (ltrim Str).

End StringRef.

(* ===================================================================== *)
(** ** find_all_symbols::SymbolInfo *)
(* ===================================================================== *)

(** Modelled from the spec: the declaration of [SymbolInfo]
    (find-all-symbols/SymbolInfo.h) is not part of the driver.  The kinds
    are the ones the SymbolRecord of the data model lists. *)
Inductive SymbolKind : Type :=
| Unknown | FunctionKind | ClassKind | VariableKind.

(** Modelled from the spec: a SymbolRecord [{name, kind, headerPath,
    lineHint}]; the fifth field holds the contexts the constructor call of
    the driver passes as [{}]. *)
Record SymbolInfo : Type := mkSymbolInfo {
  Name : string;
  Type_ : SymbolKind;
  FilePath : string;
  LineNumber : Z;
  Contexts : list string
}.

(* ===================================================================== *)
(** ** The fixed data source (lines 97-111) *)
(* ===================================================================== *)

Definition push_back {A : Type} (V : list A) (x : A) : list A := V ++ [x].

(** The inner loop: one [Symbols.push_back] per piece of [CommaSplits]. *)
Definition fixed_headers_loop (Split : string * string)
    (CommaSplits : list string) (Symbols : list SymbolInfo) : list SymbolInfo :=
  fold_left
    (fun Symbols Header =>
       push_back Symbols
         (mkSymbolInfo (StringRef.trim (fst Split)) Unknown
                       (StringRef.trim Header) 1%Z []))
    CommaSplits Symbols.

(** The body of the outer loop for one [Pair]. *)
Definition fixed_pair_body (Symbols : list SymbolInfo) (Pair : string)
  : list SymbolInfo :=
  let Split := StringRef.split "="%char Pair in
  let CommaSplits := StringRef.split_into "," (snd Split) in
  fixed_headers_loop Split CommaSplits Symbols.

(** The vector [Symbols] once the outer loop is over. *)
Definition fixed_symbols (Input : string) : list SymbolInfo :=
  let SemicolonSplits := StringRef.split_into ";" Input in
  fold_left fixed_pair_body SemicolonSplits [].

(* ===================================================================== *)
(** ** std::set<std::string> *)
(* ===================================================================== *)

(** A [std::set<std::string>] is represented by its in-order enumeration
    ([begin()] to [end()]); the order is [std::less<std::string>], the
    lexicographic comparison of the characters. *)
Module StdSet.

Definition t : Type := list string.

Definition empty : t := [].

Definition lt (a b : string) : Prop := String.compare a b = Lt.

(** [std::set::insert]: the element is placed at its position in the
    order; an equal element already present is kept and nothing is added. *)
Fixpoint insert (x : string) (s : t) : t :=
  match s with
  | [] => [x]
  | y :: s' =>
      match String.compare x y with
      | Lt => x :: y :: s'
      | Eq => y :: s'
      | Gt => y :: insert x s'
      end
  end.

End StdSet.

(* ===================================================================== *)
(** ** Errors, replacements and symbol indices *)
(* ===================================================================== *)

(** [std::error_code], reduced to its [message()]. *)
Record error_code : Type := mk_error_code { message : string }.

(** [llvm::ErrorOr<T>]. *)
Inductive ErrorOr (A : Type) : Type :=
| Ok (Value : A)
| Err (EC : error_code).
Arguments Ok {A} Value.
Arguments Err {A} EC.

(** [tooling::Replacement]. *)
Record Replacement : Type := mkReplacement {
  ReplacementFile : string;
  Offset : nat;
  Length : nat;
  ReplacementText : string
}.

(** The two [SymbolIndex] implementations the driver can install. *)
Inductive SymbolIndex : Type :=
| InMemorySymbolIndex (Symbols : list SymbolInfo)
| YamlSymbolIndex (Symbols : list SymbolInfo).

(** Modelled from the spec: the lookup of the in-memory index
    (InMemorySymbolIndex.cpp is not part of the driver).  "Lookup returns
    all records with trimmed-name equality": the records whose name, which
    was trimmed when the index was built, equals the name asked for. *)
Definition InMemoryIndex_lookup (Symbols : list SymbolInfo) (name : string)
  : list SymbolInfo :=
  filter (fun R => String.eqb (Name R) name) Symbols.

(** A path as the list of its components below the file system root. *)
Definition Path : Type := list string.

(** [llvm::sys::path::parent_path] on a component list. *)
Definition parent_path (P : Path) : Path := removelast P.

(** The native spelling of a path: ["/a/b"] for [["a"; "b"]]. *)
Definition native (P : Path) : string :=
  fold_right (fun C Rest => ("/" ++ C ++ Rest)%string) "" P.

Definition NotFoundError : error_code := mk_error_code "NotFoundError".

(** Modelled from the spec: [YamlSymbolIndex::createFromDirectory]
    (YamlSymbolIndex.cpp is not part of the driver).  It "searches dir, then
    each ancestor directory up to the filesystem root, for a file named
    filename; fails with NotFoundError if none of the ancestors contain it",
    with "an explicit loop bound equal to path-depth". *)
Fixpoint search_upwards (bound : nat)
    (createFromFile : string -> ErrorOr (list SymbolInfo))
    (Directory : Path) (Name : string) : ErrorOr (list SymbolInfo) :=
  match createFromFile (native (Directory ++ [Name])) with
  | Ok DB => Ok DB
  | Err _ =>
      match bound with
      | 0 => Err NotFoundError
      | S bound' =>
          search_upwards bound' createFromFile (parent_path Directory) Name
      end
  end.

Definition createFromDirectory
    (createFromFile : string -> ErrorOr (list SymbolInfo))
    (Directory : Path) (Name : string) : ErrorOr (list SymbolInfo) :=
  search_upwards (List.length Directory) createFromFile Directory Name.

(** [Directory], its parent, ..., the root. *)
Fixpoint ancestors_from (bound : nat) (Directory : Path) : list Path :=
  match bound with
  | 0 => [Directory]
  | S bound' => Directory :: ancestors_from bound' (parent_path Directory)
  end.

Definition ancestors (Directory : Path) : list Path :=
  ancestors_from (List.length Directory) Directory.

(* ===================================================================== *)
(** ** Command line options and the environment of a run *)
(* ===================================================================== *)

Inductive DatabaseFormatTy : Type :=
| fixed  (* Hard-coded mapping. *)
| yaml.  (* Yaml database created by find-all-symbols. *)

(** The [cl::opt] globals after [CommonOptionsParser] has run, and the
    source path list of the parser. *)
Record Options : Type := mkOptions {
  DatabaseFormat : DatabaseFormatTy;
  Input : string;
  MinimizeIncludePaths : bool;
  Quiet : bool;
  STDINMode : bool;
  Style : string;
  SourcePathList : list string
}.

(** What [tool.run(&Factory)] is given ... *)
Record ToolInvocation : Type := mkToolInvocation {
  ToolSourcePaths : list string;
  MappedVirtualFile : option (string * string);
  ToolIndexMgr : list SymbolIndex;
  ToolStyle : string;
  ToolMinimize : bool
}.

(** ... and what it leaves behind: its status, the calls of
    [Headers.insert] and the vector [Replacements]. *)
Record ToolResult : Type := mkToolResult {
  ExitStatus : Z;
  InsertedHeaders : list string;
  CollectedReplacements : list Replacement
}.

(** The collaborators of the driver. *)
Record Env : Type := mkEnv {
  (** [MemoryBuffer::getSTDIN()] *)
  getSTDIN : ErrorOr string;
  (** [tooling::getAbsolutePath] *)
  getAbsolutePath : string -> Path;
  (** [YamlSymbolIndex::createFromFile] on the files present *)
  createFromFile : string -> ErrorOr (list SymbolInfo);
  (** [ClangTool::run] with the [IncludeFixerActionFactory] *)
  run : ToolInvocation -> ToolResult;
  (** [tooling::applyAllReplacements(StringRef Code, const Replacements &)],
      given the elements the set of replacements is built from *)
  applyAllReplacements : string -> list Replacement -> string;
  (** [tooling::applyAllReplacements(Replacements, Rewrites)] followed by
      [Rewrites.overwriteChangedFiles()]: [true] when a file was not saved *)
  overwriteChangedFiles : list Replacement -> bool
}.

(* ===================================================================== *)
(** ** The driver as a state machine with early exit *)
(* ===================================================================== *)

(** What the driver does to the outside, in order. *)
Inductive Event : Type :=
| ReadStdin
| MapVirtualFile (FilePath Content : string)
| LoadYamlFile (FilePath : string)
| SearchYamlFile (Directory : Path) (Name : string)
| ToolRun (Invocation : ToolInvocation)
| ApplyToBuffer (Code : string) (Replaces : list Replacement)
| RewriteFiles (Replaces : list Replacement).

(** The streams, the locals that outlive a block, and the events so far. *)
Record State : Type := mkState {
  errs : string;
  outs : string;
  SymbolIndexMgr : list SymbolIndex;
  Headers : StdSet.t;
  Replacements : list Replacement;
  trace : list Event
}.

Definition initial : State := mkState "" "" [] StdSet.empty [] [].

(** How a block ends: it falls through with a value, the function returns
    a code, an [assert] fails, or the behaviour is undefined ([front()] of
    an empty vector, a null [Code]). *)
Inductive Flow (A : Type) : Type :=
| Next (a : A)
| Return (code : Z)
| AssertionFailed
| Undefined.
Arguments Next {A} a.
Arguments Return {A} code.
Arguments AssertionFailed {A}.
Arguments Undefined {A}.

Definition M (A : Type) : Type := State -> Flow A * State.

Definition ret {A : Type} (a : A) : M A := fun s => (Next a, s).

Definition bind {A B : Type} (m : M A) (k : A -> M B) : M B :=
  fun s =>
    match m s with
    | (Next a, s') => k a s'
    | (Return c, s') => (Return c, s')
    | (AssertionFailed, s') => (AssertionFailed, s')
    | (Undefined, s') => (Undefined, s')
    end.

Declare Scope driver_scope.
Delimit Scope driver_scope with driver.
Notation "x <- m ;; k" := (bind m (fun x => k))
  (at level 61, m at next level, right associativity) : driver_scope.
Notation "m ;; k" := (bind m (fun _ => k))
  (at level 61, right associativity) : driver_scope.
Local Open Scope driver_scope.

Definition return_ {A : Type} (code : Z) : M A := fun s => (Return code, s).

Definition assert_ (cond : bool) : M unit :=
  fun s => if cond then (Next tt, s) else (AssertionFailed, s).

Definition undefined {A : Type} : M A := fun s => (Undefined, s).

Definition emit (e : Event) : M unit :=
  fun s => (Next tt, mkState (errs s) (outs s) (SymbolIndexMgr s) (Headers s)
                             (Replacements s) (trace s ++ [e])).

(** [llvm::errs() << Text] *)
Definition errs_write (Text : string) : M unit :=
  fun s => (Next tt, mkState (errs s ++ Text)%string (outs s) (SymbolIndexMgr s)
                             (Headers s) (Replacements s) (trace s)).

(** [llvm::outs() << Text] *)
Definition outs_write (Text : string) : M unit :=
  fun s => (Next tt, mkState (errs s) (outs s ++ Text)%string (SymbolIndexMgr s)
                             (Headers s) (Replacements s) (trace s)).

(** [SymbolIndexMgr->addSymbolIndex(Index)] appends the index. *)
Definition addSymbolIndex (Index : SymbolIndex) : M unit :=
  fun s => (Next tt, mkState (errs s) (outs s) (SymbolIndexMgr s ++ [Index])
                             (Headers s) (Replacements s) (trace s)).

Definition getSymbolIndexMgr : M (list SymbolIndex) :=
  fun s => (Next (SymbolIndexMgr s), s).

Definition getHeaders : M StdSet.t := fun s => (Next (Headers s), s).

Definition getReplacements : M (list Replacement) :=
  fun s => (Next (Replacements s), s).

(** The factory holds references to [Headers] and [Replacements]: the run
    inserts into the one and fills the other. *)
Definition store_results (R : ToolResult) : M unit :=
  fun s => (Next tt,
            mkState (errs s) (outs s) (SymbolIndexMgr s)
                    (fold_left (fun H Header => StdSet.insert Header H)
                               (InsertedHeaders R) (Headers s))
                    (Replacements s ++ CollectedReplacements R) (trace s)).

(** [std::vector::front()]. *)
Definition front (V : list string) : M string :=
  match V with
  | [] => undefined
  | x :: _ => ret x
  end.

(** A range-based [for] over a container. *)
Fixpoint for_each {A : Type} (l : list A) (body : A -> M unit) : M unit :=
  match l with
  | [] => ret tt
  | x :: l' => body x ;; for_each l' body
  end.

Definition newline : string := String (ascii_of_nat 10) "".

(** Lines 73-88: in STDINMode the content of the file is overridden with
    the standard input.  The result is the local [Code], null unless the
    block ran, together with the path it is mapped at. *)
Definition stdin_block (O : Options) (E : Env) : M (option (string * string)) :=
  if STDINMode O then
    assert_ (Nat.eqb (List.length (SourcePathList O)) 1) ;;
    emit ReadStdin ;;
    match getSTDIN E with
    | Err EC =>
        errs_write (message EC ++ newline)%string ;;
        return_ 1%Z
    | Ok Code =>
        if Nat.eqb (String.length Code) 0 then
          return_ 0%Z (* Skip empty files. *)
        else
          File <- front (SourcePathList O) ;;
          emit (MapVirtualFile File Code) ;;
          ret (Some (File, Code))
    end
  else ret None.

(** Lines 90-139: set up the data source. *)
Definition data_source_block (O : Options) (E : Env) : M unit :=
  match DatabaseFormat O with
  | fixed =>
      let Symbols := fixed_symbols (Input O) in
      addSymbolIndex (InMemorySymbolIndex Symbols)
  | yaml =>
      DB <- (if negb (Nat.eqb (String.length (Input O)) 0) then
               emit (LoadYamlFile (Input O)) ;;
               ret (createFromFile E (Input O))
             else
               (* If we don't have any input file, look in the directory of
                  the first file and its parents. *)
               File <- front (SourcePathList O) ;;
               let AbsolutePath := getAbsolutePath E File in
               let Directory := parent_path AbsolutePath in
               emit (SearchYamlFile Directory "find_all_symbols_db.yaml") ;;
               ret (createFromDirectory (createFromFile E) Directory
                                        "find_all_symbols_db.yaml")) ;;
      match DB with
      | Err EC =>
          errs_write ("Couldn't find YAML db: " ++ message EC ++ newline)%string ;;
          return_ 1%Z
      | Ok DB => addSymbolIndex (YamlSymbolIndex DB)
      end
  end.

(** Lines 141-175: run the tool, report, apply the replacements. *)
Definition run_block (O : Options) (E : Env) (Code : option (string * string))
  : M Z :=
  Mgr <- getSymbolIndexMgr ;;
  let Invocation :=
    mkToolInvocation (SourcePathList O) Code Mgr (Style O)
                     (MinimizeIncludePaths O) in
  emit (ToolRun Invocation) ;;
  let Result := run E Invocation in
  store_results Result ;;
  if negb (Z.eqb (ExitStatus Result) 0) then
    errs_write
      ("Clang died with a fatal error! (incorrect include paths?)" ++ newline)%string ;;
    return_ 1%Z
  else
    (if negb (Quiet O) then
       Hs <- getHeaders ;;
       for_each Hs (fun Header => errs_write ("Added #include " ++ Header)%string)
     else ret tt) ;;
    Replacements <- getReplacements ;;
    if STDINMode O then
      match Code with
      | None => undefined
      | Some (_, Buffer) =>
          emit (ApplyToBuffer Buffer Replacements) ;;
          let ChangedCode := applyAllReplacements E Buffer Replacements in
          outs_write ChangedCode ;;
          return_ 0%Z
      end
    else
      (* Write replacements to disk. *)
      emit (RewriteFiles Replacements) ;;
      return_ (Z.b2z (overwriteChangedFiles E Replacements)).

Definition includeFixerMain (O : Options) (E : Env) : M Z :=
  Code <- stdin_block O E ;;
  data_source_block O E ;;
  run_block O E Code.

(** How the process ends. *)
Inductive Outcome : Type :=
| Exit (code : Z)
| Aborted   (* a failed assertion *)
| Unspecified.

Definition outcome_of (F : Flow Z) : Outcome :=
  match F with
  | Next c => Exit c
  | Return c => Exit c
  | AssertionFailed => Aborted
  | Undefined => Unspecified
  end.

(** [main]: the outcome and the final state of a run from scratch. *)
Definition main (O : Options) (E : Env) : Outcome * State :=
  let (F, s) := includeFixerMain O E initial in (outcome_of F, s).

Definition exit_of (O : Options) (E : Env) : Outcome := fst (main O E).
Definition final (O : Options) (E : Env) : State := snd (main O E).

(* ===================================================================== *)
(** ** The construction of the fixed index, as the specification words it *)
(* ===================================================================== *)

(** "Split the literal on [;], split each piece at the first [=], split the
    right-hand side on [,]": the (name, header) pairs, in literal order. *)
Definition literal_pairs (literal : string) : list (string * string) :=
  flat_map
    (fun piece =>
       let (name, rhs) := StringRef.split "="%char piece in
       map (fun header => (name, header)) (StringRef.split_into "," rhs))
    (StringRef.split_into ";" literal).

(** "Every resulting pair yields one SymbolRecord whose name and header are
    whitespace-trimmed, whose kind is Unknown, and whose lineHint is 1." *)
Definition record_of_pair (p : string * string) : SymbolInfo :=
  mkSymbolInfo (StringRef.trim (fst p)) Unknown (StringRef.trim (snd p)) 1%Z [].

(** A string that trimming leaves alone on either side. *)
Definition trimmed (Str : string) : Prop :=
  StringRef.ltrim Str = Str /\ StringRef.rtrim Str = Str.

Fixpoint all_space (Str : string) : bool :=
  match Str with
  | EmptyString => true
  | String c Rest => StringRef.is_space c && all_space Rest
  end.

(** The records an entry of the literal contributes to a lookup of [name]. *)
Definition entry_records (name Pair : string) : list SymbolInfo :=
  let Split := StringRef.split "="%char Pair in
  if String.eqb (StringRef.trim (fst Split)) name then
    map (fun Header => mkSymbolInfo name Unknown (StringRef.trim Header) 1%Z [])
        (StringRef.split_into "," (snd Split))
  else [].

(** The text the reporting loop writes for a set of headers. *)
Definition report (Hs : list string) : string :=
  fold_right (fun Header Rest => ("Added #include " ++ Header ++ Rest)%string) "" Hs.

(** The number of line terminators in a text. *)
Fixpoint count_newlines (Text : string) : nat :=
  match Text with
  | EmptyString => 0
  | String c Rest =>
      (if Ascii.eqb c (ascii_of_nat 10) then 1 else 0) + count_newlines Rest
  end.

(** The events that process an input unit or apply an edit. *)
Definition is_processing (e : Event) : bool :=
  match e with
  | ToolRun _ | ApplyToBuffer _ _ | RewriteFiles _ => true
  | _ => false
  end.

(** The run ended in the fatal way of a failed load: code 1, the report on
    the error stream, nothing on the output stream, no index installed and
    no unit processed. *)
Definition fatal_load_failure (O : Options) (E : Env) (EC : error_code) : Prop :=
  exit_of O E = Exit 1
  /\ errs (final O E) = ("Couldn't find YAML db: " ++ message EC ++ newline)%string
  /\ outs (final O E) = ""
  /\ SymbolIndexMgr (final O E) = []
  /\ forallb (fun e => negb (is_processing e)) (trace (final O E)) = true.

(** The run gets past the [-stdin] block: the mode is off, or there is one
    source path and the standard input was read and is not empty. *)
Definition passes_stdin_block (O : Options) (E : Env) : Prop :=
  STDINMode O = false
  \/ (List.length (SourcePathList O) = 1
      /\ exists Code, getSTDIN E = Ok Code /\ Code <> "").

(** The state the tool run leaves, before anything is reported. *)
Definition after_run (O : Options) (E : Env) (Code : option (string * string))
    (s : State) : ToolInvocation * ToolResult * State :=
  let Invocation :=
    mkToolInvocation (SourcePathList O) Code (SymbolIndexMgr s) (Style O)
                     (MinimizeIncludePaths O) in
  let Result := run E Invocation in
  (Invocation, Result,
   mkState (errs s) (outs s) (SymbolIndexMgr s)
           (fold_left (fun H Header => StdSet.insert Header H)
                      (InsertedHeaders Result) (Headers s))
           (Replacements s ++ CollectedReplacements Result)
           (trace s ++ [ToolRun Invocation])).

(* ===================================================================== *)
(** ** The paths through the driver *)
(* ===================================================================== *)

(** What [tool.run] is called with once [Index] is installed. *)
Definition invocation (O : Options) (Code : option (string * string))
    (Index : SymbolIndex) : ToolInvocation :=
  mkToolInvocation (SourcePathList O) Code [Index] (Style O)
                   (MinimizeIncludePaths O).

(** The set [Headers] after the run of the tool. *)
Definition tool_headers (E : Env) (I : ToolInvocation) : StdSet.t :=
  fold_left (fun H Header => StdSet.insert Header H)
            (InsertedHeaders (run E I)) StdSet.empty.

(** The vector [Replacements] after the run of the tool. *)
Definition tool_replacements (E : Env) (I : ToolInvocation) : list Replacement :=
  CollectedReplacements (run E I).

(** The error stream after the reporting loop. *)
Definition reported (O : Options) (Hs : StdSet.t) : string :=
  if Quiet O then "" else report Hs.

(** The run gets past the [-stdin] block with the local [Code] and the
    events so far. *)
Inductive Entered (O : Options) (E : Env)
  : option (string * string) -> list Event -> Prop :=
| entered_files :
    STDINMode O = false -> Entered O E None []
| entered_stdin File Buffer :
    STDINMode O = true -> SourcePathList O = [File] ->
    getSTDIN E = Ok Buffer -> Buffer <> "" ->
    Entered O E (Some (File, Buffer)) [ReadStdin; MapVirtualFile File Buffer].

(** The data source is set up with these events and this result. *)
Inductive Loads (O : Options) (E : Env)
  : list Event -> ErrorOr SymbolIndex -> Prop :=
| loads_fixed :
    DatabaseFormat O = fixed ->
    Loads O E [] (Ok (InMemorySymbolIndex (fixed_symbols (Input O))))
| loads_file_ok DB :
    DatabaseFormat O = yaml -> Input O <> "" ->
    createFromFile E (Input O) = Ok DB ->
    Loads O E [LoadYamlFile (Input O)] (Ok (YamlSymbolIndex DB))
| loads_file_error EC :
    DatabaseFormat O = yaml -> Input O <> "" ->
    createFromFile E (Input O) = Err EC ->
    Loads O E [LoadYamlFile (Input O)] (Err EC)
| loads_search_ok File Rest DB :
    DatabaseFormat O = yaml -> Input O = "" ->
    SourcePathList O = File :: Rest ->
    createFromDirectory (createFromFile E)
      (parent_path (getAbsolutePath E File)) "find_all_symbols_db.yaml" = Ok DB ->
    Loads O E [SearchYamlFile (parent_path (getAbsolutePath E File))
                              "find_all_symbols_db.yaml"]
          (Ok (YamlSymbolIndex DB))
| loads_search_error File Rest EC :
    DatabaseFormat O = yaml -> Input O = "" ->
    SourcePathList O = File :: Rest ->
    createFromDirectory (createFromFile E)
      (parent_path (getAbsolutePath E File)) "find_all_symbols_db.yaml" = Err EC ->
    Loads O E [SearchYamlFile (parent_path (getAbsolutePath E File))
                              "find_all_symbols_db.yaml"]
          (Err EC).

(** Every way [includeFixerMain] can end, with the state it ends in. *)
Inductive Run (O : Options) (E : Env) : Outcome * State -> Prop :=
| run_aborted :
    STDINMode O = true -> List.length (SourcePathList O) <> 1 ->
    Run O E (Aborted, initial)
| run_stdin_error EC :
    STDINMode O = true -> List.length (SourcePathList O) = 1 ->
    getSTDIN E = Err EC ->
    Run O E (Exit 1, mkState (message EC ++ newline)%string "" [] [] [] [ReadStdin])
| run_stdin_empty :
    STDINMode O = true -> List.length (SourcePathList O) = 1 ->
    getSTDIN E = Ok "" ->
    Run O E (Exit 0, mkState "" "" [] [] [] [ReadStdin])
| run_no_source :
    STDINMode O = false -> DatabaseFormat O = yaml -> Input O = "" ->
    SourcePathList O = [] ->
    Run O E (Unspecified, initial)
| run_load_error Code T0 T1 EC :
    Entered O E Code T0 -> Loads O E T1 (Err EC) ->
    Run O E (Exit 1,
             mkState ("Couldn't find YAML db: " ++ message EC ++ newline)%string
                     "" [] [] [] (T0 ++ T1))
| run_tool_died Code T0 T1 Index :
    Entered O E Code T0 -> Loads O E T1 (Ok Index) ->
    ExitStatus (run E (invocation O Code Index)) <> 0%Z ->
    Run O E (Exit 1,
             mkState ("Clang died with a fatal error! (incorrect include paths?)"
                      ++ newline)%string
                     "" [Index]
                     (tool_headers E (invocation O Code Index))
                     (tool_replacements E (invocation O Code Index))
                     (T0 ++ T1 ++ [ToolRun (invocation O Code Index)]))
| run_patched File Buffer T0 T1 Index :
    Entered O E (Some (File, Buffer)) T0 -> Loads O E T1 (Ok Index) ->
    ExitStatus (run E (invocation O (Some (File, Buffer)) Index)) = 0%Z ->
    Run O E (Exit 0,
             mkState (reported O (tool_headers E (invocation O (Some (File, Buffer)) Index)))
                     (applyAllReplacements E Buffer
                        (tool_replacements E (invocation O (Some (File, Buffer)) Index)))
                     [Index]
                     (tool_headers E (invocation O (Some (File, Buffer)) Index))
                     (tool_replacements E (invocation O (Some (File, Buffer)) Index))
                     (T0 ++ T1 ++
                      [ToolRun (invocation O (Some (File, Buffer)) Index);
                       ApplyToBuffer Buffer
                         (tool_replacements E (invocation O (Some (File, Buffer)) Index))]))
| run_rewritten T1 Index :
    Entered O E None [] -> Loads O E T1 (Ok Index) ->
    ExitStatus (run E (invocation O None Index)) = 0%Z ->
    Run O E (Exit (Z.b2z (overwriteChangedFiles E
                            (tool_replacements E (invocation O None Index)))),
             mkState (reported O (tool_headers E (invocation O None Index)))
                     "" [Index]
                     (tool_headers E (invocation O None Index))
                     (tool_replacements E (invocation O None Index))
                     (T1 ++
                      [ToolRun (invocation O None Index);
                       RewriteFiles (tool_replacements E (invocation O None Index))])).

(* ===================================================================== *)
(** ** Concrete runs *)
(* ===================================================================== *)

Module Scenario.

Definition db_record : SymbolInfo :=
  mkSymbolInfo "Foo" ClassKind "foo.h" 7%Z [].

(** A project with a database two directories above the source file. *)
Definition files (FilePath : string) : ErrorOr (list SymbolInfo) :=
  if String.eqb FilePath "/home/find_all_symbols_db.yaml" then Ok [db_record]
  else Err (mk_error_code "No such file or directory").

Definition no_files (FilePath : string) : ErrorOr (list SymbolInfo) :=
  Err (mk_error_code "No such file or directory").

Definition include_a : Replacement :=
  mkReplacement "main.cc" 0 0 "#include <a.h> ".

(** A tool run that asks for [<b.h>], [<a.h>] and [<b.h>] again. *)
Definition tool_ok (Invocation : ToolInvocation) : ToolResult :=
  mkToolResult 0%Z ["<b.h>"; "<a.h>"; "<b.h>"] [include_a].

Definition tool_dies (Invocation : ToolInvocation) : ToolResult :=
  mkToolResult 1%Z [] [].

(** Insertions at offset 0 only, which is all the runs here produce. *)
Definition apply_at_front (Code : string) (Replaces : list Replacement)
  : string :=
  fold_right (fun R Rest => (ReplacementText R ++ Rest)%string) Code Replaces.

Definition env (Stdin : ErrorOr string)
    (Files : string -> ErrorOr (list SymbolInfo))
    (Tool : ToolInvocation -> ToolResult) (WriteFails : bool) : Env :=
  mkEnv Stdin (fun _ => ["home"; "user"; "main.cc"]) Files Tool
        apply_at_front (fun _ => WriteFails).

Definition options (Format : DatabaseFormatTy) (Database : string)
    (BeQuiet Stdin : bool) (Sources : list string) : Options :=
  mkOptions Format Database true BeQuiet Stdin "llvm" Sources.

End Scenario.

(* ===================================================================== *)
(** ** Notions used to state further properties of the driver *)
(* ===================================================================== *)

(** The character does not occur in the string. *)
Definition absent (C : ascii) (Str : string) : Prop :=
  StringRef.find C Str = None.

(** A table of symbols, each with its headers, written the way [-input]
    expects it: [name=header,header;name=header]. *)
Definition render_entry (Entry : string * list string) : string :=
  (fst Entry ++ "=" ++ String.concat "," (snd Entry))%string.

Definition render_literal (Table : list (string * list string)) : string :=
  String.concat ";" (map render_entry Table).

(** The records of such a table. *)
Definition table_records (Table : list (string * list string))
  : list SymbolInfo :=
  flat_map
    (fun Entry =>
       map (fun Header =>
              mkSymbolInfo (StringRef.trim (fst Entry)) Unknown
                           (StringRef.trim Header) 1%Z [])
           (snd Entry))
    Table.

(** An entry that can be written without ambiguity: at least one header,
    no separator inside the name or a header. *)
Definition plain_entry (Entry : string * list string) : Prop :=
  snd Entry <> []
  /\ absent "=" (fst Entry) /\ absent ";" (fst Entry)
  /\ forall Header, In Header (snd Entry) ->
       absent "," Header /\ absent ";" Header.

(** The same options with another value of [-q]. *)
Definition set_Quiet (BeQuiet : bool) (O : Options) : Options :=
  mkOptions (DatabaseFormat O) (Input O) (MinimizeIncludePaths O) BeQuiet
            (STDINMode O) (Style O) (SourcePathList O).


(** Two runs that differ at most in the error stream. *)
Definition same_but_errs (a b : Outcome * State) : Prop :=
  fst a = fst b
  /\ outs (snd a) = outs (snd b)
  /\ SymbolIndexMgr (snd a) = SymbolIndexMgr (snd b)
  /\ Headers (snd a) = Headers (snd b)
  /\ Replacements (snd a) = Replacements (snd b)
  /\ trace (snd a) = trace (snd b).

Definition is_tool_run (e : Event) : bool :=
  match e with
  | ToolRun _ => true
  | _ => false
  end.

(** The events that apply the replacements. *)
Definition is_edit (e : Event) : bool :=
  match e with
  | ApplyToBuffer _ _ | RewriteFiles _ => true
  | _ => false
  end.

(** The events that look for a yaml database. *)
Definition is_database_access (e : Event) : bool :=
  match e with
  | LoadYamlFile _ | SearchYamlFile _ _ => true
  | _ => false
  end.

(* ===================================================================== *)
(** ** Facts about the StringRef model *)
(* ===================================================================== *)

Lemma prefix_length (a b : string) :
  prefix a b = true -> String.length a <= String.length b.
Proof.
  revert b; induction a as [|x a IH]; intros [|y b]; simpl; intros H;
    try lia; try discriminate.
  destruct (ascii_dec x y); [|discriminate].
  apply IH in H; lia.
Qed.

Lemma find_str_bound (Needle Str : string) (Idx : nat) :
  StringRef.find_str Needle Str = Some Idx ->
  Idx + String.length Needle <= String.length Str.
Proof.
  revert Idx; induction Str as [|c Str IH]; intros Idx H.
  - cbn [StringRef.find_str] in H.
    destruct (prefix Needle "") eqn:P; [|discriminate].
    injection H as <-. apply prefix_length in P. simpl in *; lia.
  - cbn [StringRef.find_str] in H.
    destruct (prefix Needle (String c Str)) eqn:P.
    + injection H as <-. apply prefix_length in P. simpl in *; lia.
    + destruct (StringRef.find_str Needle Str) as [i|]; [|discriminate].
      injection H as <-. specialize (IH i eq_refl). simpl; lia.
Qed.

Lemma drop_front_length (N : nat) (Str : string) :
  String.length (StringRef.drop_front N Str) = String.length Str - N.
Proof.
  revert Str; induction N as [|N IH]; intros [|c Str]; simpl; auto.
Qed.

Lemma split_loop_acc (fuel : nat) (Separator Str : string) (A : list string) :
  StringRef.split_loop fuel Separator Str A =
  A ++ StringRef.split_loop fuel Separator Str [].
Proof.
  revert Str A; induction fuel as [|fuel IH]; intros Str A; simpl; auto.
  destruct (StringRef.find_str Separator Str) as [Idx|]; auto.
  rewrite (IH _ (A ++ _)), (IH _ [_]). simpl.
  now rewrite <- app_assoc.
Qed.

(** Fuel: the loop consumes at least one character per round, so any fuel
    above the length of the string gives the same pieces. *)
Lemma split_loop_fuel (Separator : string) :
  Separator <> "" ->
  forall f1 f2 Str A,
    String.length Str < f1 -> String.length Str < f2 ->
    StringRef.split_loop f1 Separator Str A =
    StringRef.split_loop f2 Separator Str A.
Proof.
  intros Hsep. assert (1 <= String.length Separator) as Hlen
    by (destruct Separator; [congruence | simpl; lia]).
  induction f1 as [|f1 IH]; intros [|f2] Str A H1 H2; try lia.
  simpl. destruct (StringRef.find_str Separator Str) as [Idx|] eqn:F; auto.
  apply find_str_bound in F.
  apply IH; rewrite drop_front_length; lia.
Qed.

(** The loop, one round at a time. *)
Lemma split_into_unfold (Separator Str : string) :
  Separator <> "" ->
  StringRef.split_into Separator Str =
  match StringRef.find_str Separator Str with
  | None => [Str]
  | Some Idx =>
      StringRef.take_front Idx Str ::
      StringRef.split_into Separator
        (StringRef.drop_front (Idx + String.length Separator) Str)
  end.
Proof.
  intros Hsep. unfold StringRef.split_into at 1. simpl.
  destruct (StringRef.find_str Separator Str) as [Idx|] eqn:F; auto.
  rewrite split_loop_acc. simpl. f_equal.
  unfold StringRef.split_into. apply split_loop_fuel; auto.
  apply find_str_bound in F. rewrite drop_front_length.
  destruct Separator; [congruence | simpl in *; lia].
Qed.

Lemma split_without_separator (Separator : ascii) (Str : string) :
  StringRef.find Separator Str = None ->
  StringRef.split Separator Str = (Str, "").
Proof. unfold StringRef.split. now intros ->. Qed.

(** [find] returns the first occurrence: the text before it is free of the
    character, and the string is that text, the character and the rest. *)
Lemma find_first_occurrence (C : ascii) (Str : string) (Idx : nat) :
  StringRef.find C Str = Some Idx ->
  Str = (StringRef.take_front Idx Str
         ++ String C (StringRef.drop_front (Idx + 1) Str))%string
  /\ StringRef.find C (StringRef.take_front Idx Str) = None.
Proof.
  unfold StringRef.take_front.
  revert Idx; induction Str as [|c Str IH]; intros Idx; simpl; [discriminate|].
  destruct (Ascii.eqb_spec c C) as [->|Hc].
  - intros H; injection H as <-. auto.
  - destruct (StringRef.find C Str) as [i|]; [|discriminate].
    intros H; injection H as <-. destruct (IH i eq_refl) as [Hs Hf].
    simpl. rewrite Hf. destruct (Ascii.eqb_spec c C); [contradiction|].
    split; auto. now rewrite <- Hs.
Qed.

Lemma prefix_split (Needle Str : string) :
  prefix Needle Str = true ->
  Str = (Needle ++ StringRef.drop_front (String.length Needle) Str)%string.
Proof.
  revert Str; induction Needle as [|x Needle IH]; intros [|y Str]; simpl; auto;
    try discriminate.
  destruct (ascii_dec x y) as [->|]; [|discriminate].
  intros H. now rewrite <- (IH _ H).
Qed.

Lemma find_str_split (Needle Str : string) (Idx : nat) :
  StringRef.find_str Needle Str = Some Idx ->
  Str = (StringRef.take_front Idx Str ++ Needle
         ++ StringRef.drop_front (Idx + String.length Needle) Str)%string.
Proof.
  unfold StringRef.take_front.
  revert Idx; induction Str as [|c Str IH]; intros Idx H;
    cbn [StringRef.find_str] in H.
  - destruct (prefix Needle "") eqn:P; [|discriminate].
    injection H as <-. now apply prefix_split in P.
  - destruct (prefix Needle (String c Str)) eqn:P.
    + injection H as <-. now apply prefix_split in P.
    + destruct (StringRef.find_str Needle Str) as [i|]; [|discriminate].
      injection H as <-. simpl. now rewrite <- (IH i eq_refl).
Qed.

Lemma split_into_nonempty (Separator Str : string) :
  StringRef.split_into Separator Str <> [].
Proof.
  unfold StringRef.split_into. simpl.
  destruct (StringRef.find_str Separator Str); [rewrite split_loop_acc|];
    discriminate.
Qed.

(** The invariant LLVM documents for [split]: joining the pieces with the
    separator gives the string back. *)
Lemma split_into_join (Separator Str : string) :
  Separator <> "" ->
  String.concat Separator (StringRef.split_into Separator Str) = Str.
Proof.
  intros Hsep.
  remember (String.length Str) as n eqn:Hn. revert Str Hn.
  induction n as [n IH] using lt_wf_ind. intros Str ->.
  rewrite split_into_unfold by assumption.
  destruct (StringRef.find_str Separator Str) as [Idx|] eqn:F; [|reflexivity].
  pose proof (find_str_bound _ _ _ F) as Hb.
  pose proof (find_str_split _ _ _ F) as Hs.
  assert (1 <= String.length Separator)
    by (destruct Separator; [congruence | simpl; lia]).
  set (Tail := StringRef.drop_front (Idx + String.length Separator) Str) in *.
  specialize (IH (String.length Tail)).
  assert (String.length Tail < String.length Str) as Hlt
    by (unfold Tail; rewrite drop_front_length; lia).
  specialize (IH Hlt Tail eq_refl).
  pose proof (split_into_nonempty Separator Tail) as Hne.
  cbn [String.concat].
  destruct (StringRef.split_into Separator Tail) as [|Piece Pieces];
    [congruence|].
  rewrite IH. now rewrite <- Hs.
Qed.

Example split_into_ex1 :
  StringRef.split_into "," ",ab,,c," = [""; "ab"; ""; "c"; ""]
  /\ StringRef.split_into "," "" = [""]
  /\ StringRef.split "="%char "a=b=c" = ("a", "b=c")
  /\ StringRef.trim "  a b  " = "a b".
Proof. repeat split. Qed.

Example fixed_symbols_ex1 :
  fixed_symbols "Foo=foo.h;Bar= bar.h , bar2.h" =
  [ mkSymbolInfo "Foo" Unknown "foo.h" 1%Z [];
    mkSymbolInfo "Bar" Unknown "bar.h" 1%Z [];
    mkSymbolInfo "Bar" Unknown "bar2.h" 1%Z [] ].
Proof. reflexivity. Qed.

Lemma ltrim_length (Str : string) :
  String.length (StringRef.ltrim Str) <= String.length Str.
Proof.
  induction Str as [|c Str IH]; simpl; auto.
  destruct (StringRef.is_space c); simpl; lia.
Qed.

Lemma ltrim_idempotent (Str : string) :
  StringRef.ltrim (StringRef.ltrim Str) = StringRef.ltrim Str.
Proof.
  induction Str as [|c Str IH]; simpl; auto.
  destruct (StringRef.is_space c) eqn:Sp; auto.
  simpl. now rewrite Sp.
Qed.

Lemma rtrim_cons (c b : ascii) (Str Rest : string) :
  StringRef.rtrim Str = String b Rest ->
  StringRef.rtrim (String c Str) = String c (String b Rest).
Proof. simpl. now intros ->. Qed.

Lemma rtrim_idempotent (Str : string) :
  StringRef.rtrim (StringRef.rtrim Str) = StringRef.rtrim Str.
Proof.
  induction Str as [|c Str IH]; auto.
  cbn [StringRef.rtrim].
  destruct (StringRef.rtrim Str) as [|b Rest] eqn:R.
  - destruct (StringRef.is_space c) eqn:Sp; simpl; auto. now rewrite Sp.
  - now apply rtrim_cons.
Qed.

Lemma ltrim_rtrim (Str : string) :
  StringRef.ltrim Str = Str ->
  StringRef.ltrim (StringRef.rtrim Str) = StringRef.rtrim Str.
Proof.
  destruct Str as [|c Str]; auto.
  cbn [StringRef.ltrim]. destruct (StringRef.is_space c) eqn:Sp.
  - intros H. pose proof (ltrim_length Str) as L. rewrite H in L. simpl in L. lia.
  - intros _. cbn [StringRef.rtrim].
    destruct (StringRef.rtrim Str); rewrite ?Sp; simpl; now rewrite Sp.
Qed.

Lemma trim_trimmed (Str : string) : trimmed (StringRef.trim Str).
Proof.
  split; unfold StringRef.trim.
  - apply ltrim_rtrim, ltrim_idempotent.
  - apply rtrim_idempotent.
Qed.

Lemma ltrim_decompose (Str : string) :
  exists l, Str = (l ++ StringRef.ltrim Str)%string /\ all_space l = true.
Proof.
  induction Str as [|c Str (l & Hl & Hs)].
  - now exists "".
  - simpl. destruct (StringRef.is_space c) eqn:Sp.
    + exists (String c l). simpl. rewrite Sp, Hs. split; auto. now f_equal.
    + now exists "".
Qed.

Lemma rtrim_decompose (Str : string) :
  exists r, Str = (StringRef.rtrim Str ++ r)%string /\ all_space r = true.
Proof.
  induction Str as [|c Str (r & Hr & Hs)].
  - now exists "".
  - cbn [StringRef.rtrim]. destruct (StringRef.rtrim Str) as [|b Rest].
    + simpl in Hr. subst r. destruct (StringRef.is_space c) eqn:Sp.
      * exists (String c Str). simpl. now rewrite Sp, Hs.
      * now exists Str.
    + exists r. split; auto. simpl. simpl in Hr. now rewrite <- Hr.
Qed.

(** Trimming removes white space at the two ends and nothing else. *)
Lemma trim_decompose (Str : string) :
  exists l r, Str = (l ++ StringRef.trim Str ++ r)%string
              /\ all_space l = true /\ all_space r = true.
Proof.
  destruct (ltrim_decompose Str) as (l & Hl & Hls).
  destruct (rtrim_decompose (StringRef.ltrim Str)) as (r & Hr & Hrs).
  exists l, r. unfold StringRef.trim. now rewrite <- Hr.
Qed.

(* ===================================================================== *)
(** ** The fixed data source: loops against comprehension *)
(* ===================================================================== *)

Lemma fixed_headers_loop_app (Split : string * string)
    (CommaSplits : list string) (Symbols : list SymbolInfo) :
  fixed_headers_loop Split CommaSplits Symbols =
  Symbols ++ map (fun Header =>
                    mkSymbolInfo (StringRef.trim (fst Split)) Unknown
                                 (StringRef.trim Header) 1%Z [])
                 CommaSplits.
Proof.
  unfold fixed_headers_loop.
  revert Symbols; induction CommaSplits as [|Header Hs IH]; intros Symbols; simpl.
  - now rewrite app_nil_r.
  - rewrite IH. unfold push_back. now rewrite <- app_assoc.
Qed.

Lemma fixed_pair_body_app (Symbols : list SymbolInfo) (Pair : string) :
  fixed_pair_body Symbols Pair = Symbols ++ fixed_pair_body [] Pair.
Proof. unfold fixed_pair_body. now rewrite !fixed_headers_loop_app. Qed.

Lemma fixed_outer_loop (Pairs : list string) (Symbols : list SymbolInfo) :
  fold_left fixed_pair_body Pairs Symbols =
  Symbols ++ flat_map (fixed_pair_body []) Pairs.
Proof.
  revert Symbols; induction Pairs as [|Pair Ps IH]; intros Symbols; simpl.
  - now rewrite app_nil_r.
  - rewrite IH, (fixed_pair_body_app Symbols). now rewrite <- app_assoc.
Qed.

Lemma fixed_symbols_flat_map (Input : string) :
  fixed_symbols Input =
  flat_map (fixed_pair_body []) (StringRef.split_into ";" Input).
Proof. unfold fixed_symbols. now rewrite fixed_outer_loop. Qed.

Lemma fixed_pair_body_records (Pair : string) :
  fixed_pair_body [] Pair =
  map record_of_pair
      (let (name, rhs) := StringRef.split "="%char Pair in
       map (fun header => (name, header)) (StringRef.split_into "," rhs)).
Proof.
  unfold fixed_pair_body. rewrite fixed_headers_loop_app. simpl.
  destruct (StringRef.split "="%char Pair) as [name rhs]. simpl.
  now rewrite map_map.
Qed.

Lemma filter_flat_map {A B : Type} (p : B -> bool) (f : A -> list B) (l : list A) :
  filter p (flat_map f l) = flat_map (fun x => filter p (f x)) l.
Proof.
  induction l as [|x l IH]; simpl; auto.
  now rewrite filter_app, IH.
Qed.

Lemma lookup_pair_body (name Pair : string) :
  InMemoryIndex_lookup (fixed_pair_body [] Pair) name = entry_records name Pair.
Proof.
  unfold InMemoryIndex_lookup, entry_records, fixed_pair_body.
  rewrite fixed_headers_loop_app. simpl.
  set (Split := StringRef.split "="%char Pair).
  induction (StringRef.split_into "," (snd Split)) as [|Header Hs IH]; simpl.
  - now destruct (String.eqb _ _).
  - rewrite IH. destruct (String.eqb_spec (StringRef.trim (fst Split)) name) as [->|];
      reflexivity.
Qed.

(** C9: the fixed index is built by splitting the literal on [;], each
    piece at its first [=] and the right-hand side on [,]; every (name,
    header) pair so obtained gives exactly one record, in literal order,
    with the trimmed name, the trimmed header, kind Unknown and line 1. *)
Theorem fixed_index_construction (Input : string) :
  fixed_symbols Input = map record_of_pair (literal_pairs Input)
  /\ forall R, In R (fixed_symbols Input) ->
       Type_ R = Unknown /\ LineNumber R = 1%Z /\ Contexts R = []
       /\ trimmed (Name R) /\ trimmed (FilePath R).
Proof.
  assert (fixed_symbols Input = map record_of_pair (literal_pairs Input)) as Heq.
  { rewrite fixed_symbols_flat_map. unfold literal_pairs.
    induction (StringRef.split_into ";" Input) as [|Pair Ps IH]; simpl; auto.
    now rewrite map_app, IH, fixed_pair_body_records. }
  split; [exact Heq|].
  intros R HR. rewrite Heq in HR. apply in_map_iff in HR as ([name header] & <- & _).
  simpl. repeat split; auto; apply trim_trimmed.
Qed.

Lemma fixed_index_construction_witness :
  fixed_symbols "Foo = foo.h;Bar=bar.h, bar2.h" =
  map record_of_pair
      [("Foo ", " foo.h"); ("Bar", "bar.h"); ("Bar", " bar2.h")]
  /\ trimmed "foo.h".
Proof.
  destruct (fixed_index_construction "Foo = foo.h;Bar=bar.h, bar2.h") as [Heq Hall].
  split; [exact Heq|].
  apply (Hall (mkSymbolInfo "Foo" Unknown "foo.h" 1%Z [])).
  simpl. auto.
Defined.

(** C1, as the code has it: an entry without [=] is not skipped, it gives
    one record with the trimmed entry as name and the empty header; a
    lookup returns, in literal order, one record per comma-separated piece
    of every entry whose trimmed left-hand side is the name asked for, with
    the header trimmed, and nothing else. *)
Theorem fixed_lookup_exact (Input name : string) :
  InMemoryIndex_lookup (fixed_symbols Input) name =
  flat_map (entry_records name) (StringRef.split_into ";" Input)
  /\ forall Pair, StringRef.find "="%char Pair = None ->
       fixed_pair_body [] Pair =
       [mkSymbolInfo (StringRef.trim Pair) Unknown "" 1%Z []].
Proof.
  split.
  - rewrite fixed_symbols_flat_map. unfold InMemoryIndex_lookup.
    rewrite filter_flat_map. apply flat_map_ext. intros Pair.
    apply lookup_pair_body.
  - intros Pair H. unfold fixed_pair_body.
    rewrite (split_without_separator _ _ H). reflexivity.
Qed.

Lemma fixed_lookup_exact_witness :
  StringRef.find "="%char "Bar" = None
  /\ fixed_pair_body [] "Bar" = [mkSymbolInfo "Bar" Unknown "" 1%Z []].
Proof.
  split; [reflexivity|].
  exact (proj2 (fixed_lookup_exact "Foo=foo.h" "Foo") "Bar" eq_refl).
Defined.

(** The entry ["Foo"] has no [=]; it is not skipped, and a lookup of [Foo]
    in ["Foo=foo.h;Foo"] returns the empty header next to [foo.h]. *)
Lemma fixed_entry_without_eq_is_kept :
  StringRef.find "="%char "Foo" = None
  /\ fixed_symbols "Foo" <> []
  /\ fixed_symbols "Foo" = [mkSymbolInfo "Foo" Unknown "" 1%Z []]
  /\ map FilePath (InMemoryIndex_lookup (fixed_symbols "Foo=foo.h;Foo") "Foo")
     = ["foo.h"; ""].
Proof. repeat split; try reflexivity. discriminate. Qed.

(* ===================================================================== *)
(** ** The std::set of headers *)
(* ===================================================================== *)

Lemma ascii_compare_refl (a : ascii) : Ascii.compare a a = Eq.
Proof. unfold Ascii.compare. apply N.compare_refl. Qed.

Lemma ascii_compare_lt_trans (a b c : ascii) :
  Ascii.compare a b = Lt -> Ascii.compare b c = Lt -> Ascii.compare a c = Lt.
Proof.
  unfold Ascii.compare. rewrite !N.compare_lt_iff. apply N.lt_trans.
Qed.

Lemma string_compare_refl (a : string) : String.compare a a = Eq.
Proof.
  induction a as [|x a IH]; simpl; auto. now rewrite ascii_compare_refl.
Qed.

Lemma lt_irrefl (a : string) : ~ StdSet.lt a a.
Proof. unfold StdSet.lt. rewrite string_compare_refl. discriminate. Qed.

Lemma lt_trans (a b c : string) :
  StdSet.lt a b -> StdSet.lt b c -> StdSet.lt a c.
Proof.
  unfold StdSet.lt. revert b c.
  induction a as [|x a IH]; intros [|y b] [|z c]; simpl; auto; try discriminate.
  destruct (Ascii.compare x y) eqn:Cxy; try discriminate;
    destruct (Ascii.compare y z) eqn:Cyz; try discriminate; intros Hab Hbc.
  - apply Ascii.compare_eq_iff in Cxy, Cyz. subst.
    rewrite ascii_compare_refl. eauto.
  - apply Ascii.compare_eq_iff in Cxy. subst. now rewrite Cyz.
  - apply Ascii.compare_eq_iff in Cyz. subst. now rewrite Cxy.
  - now rewrite (ascii_compare_lt_trans _ _ _ Cxy Cyz).
Qed.

Lemma compare_gt_lt (a b : string) :
  String.compare a b = Gt -> StdSet.lt b a.
Proof.
  unfold StdSet.lt. rewrite (String.compare_antisym a b).
  now destruct (String.compare b a).
Qed.

Lemma insert_In (x h : string) (s : StdSet.t) :
  In h (StdSet.insert x s) <-> h = x \/ In h s.
Proof.
  induction s as [|y s IH]; simpl.
  - intuition.
  - destruct (String.compare x y) eqn:C; simpl.
    + apply String.compare_eq_iff in C. subst. intuition.
    + intuition.
    + rewrite IH. intuition.
Qed.

Lemma insert_sorted (x : string) (s : StdSet.t) :
  StronglySorted StdSet.lt s -> StronglySorted StdSet.lt (StdSet.insert x s).
Proof.
  induction 1 as [|y s Hs IH Hy]; simpl.
  - repeat constructor.
  - destruct (String.compare x y) eqn:C.
    + now constructor.
    + constructor; [now constructor|].
      constructor; auto.
      eapply Forall_impl; [|exact Hy]. intros z. now apply lt_trans.
    + constructor; auto.
      apply Forall_forall. intros z Hz. apply insert_In in Hz as [->|Hz].
      * now apply compare_gt_lt.
      * rewrite Forall_forall in Hy. auto.
Qed.

Lemma sorted_NoDup (s : StdSet.t) : StronglySorted StdSet.lt s -> NoDup s.
Proof.
  induction 1 as [|y s Hs IH Hy]; constructor; auto.
  intros Hin. rewrite Forall_forall in Hy. exact (lt_irrefl _ (Hy _ Hin)).
Qed.

Lemma inserts_sorted (l : list string) (s : StdSet.t) :
  StronglySorted StdSet.lt s ->
  StronglySorted StdSet.lt (fold_left (fun H Header => StdSet.insert Header H) l s).
Proof.
  revert s; induction l as [|x l IH]; intros s Hs; simpl; auto.
  apply IH, insert_sorted, Hs.
Qed.

Lemma inserts_In (l : list string) (s : StdSet.t) (h : string) :
  In h (fold_left (fun H Header => StdSet.insert Header H) l s)
  <-> In h l \/ In h s.
Proof.
  revert s; induction l as [|x l IH]; intros s; simpl.
  - intuition.
  - rewrite IH, insert_In. intuition.
Qed.

(* ===================================================================== *)
(** ** The driver, block by block *)
(* ===================================================================== *)

Lemma append_assoc (a b c : string) : ((a ++ b) ++ c = a ++ (b ++ c))%string.
Proof. induction a as [|x a IH]; simpl; auto. now rewrite IH. Qed.

Lemma append_nil_r (a : string) : (a ++ "")%string = a.
Proof. induction a as [|x a IH]; simpl; auto. now rewrite IH. Qed.

(** The reporting loop writes [report Hs] and touches nothing else. *)
Lemma report_loop (Hs : list string) (s : State) :
  for_each Hs (fun Header => errs_write ("Added #include " ++ Header)%string) s =
  (Next tt, mkState (errs s ++ report Hs)%string (outs s) (SymbolIndexMgr s)
                    (Headers s) (Replacements s) (trace s)).
Proof.
  revert s; induction Hs as [|Header Hs IH]; intros s; simpl.
  - rewrite append_nil_r. now destruct s.
  - unfold bind, errs_write at 1. rewrite IH. simpl.
    now rewrite !append_assoc.
Qed.

Lemma run_block_spec (O : Options) (E : Env) (Code : option (string * string))
    (s : State) :
  run_block O E Code s =
  let '(Invocation, Result, r) := after_run O E Code s in
  if negb (Z.eqb (ExitStatus Result) 0) then
    (Return 1%Z,
     mkState (errs r ++ "Clang died with a fatal error! (incorrect include paths?)"
                     ++ newline)%string
             (outs r) (SymbolIndexMgr r) (Headers r) (Replacements r) (trace r))
  else
    let reported := if Quiet O then errs r else (errs r ++ report (Headers r))%string in
    if STDINMode O then
      match Code with
      | None =>
          (Undefined,
           mkState reported (outs r) (SymbolIndexMgr r) (Headers r)
                   (Replacements r) (trace r))
      | Some (_, Buffer) =>
          (Return 0%Z,
           mkState reported
                   (outs r ++ applyAllReplacements E Buffer (Replacements r))%string
                   (SymbolIndexMgr r) (Headers r) (Replacements r)
                   (trace r ++ [ApplyToBuffer Buffer (Replacements r)]))
      end
    else
      (Return (Z.b2z (overwriteChangedFiles E (Replacements r))),
       mkState reported (outs r) (SymbolIndexMgr r) (Headers r) (Replacements r)
               (trace r ++ [RewriteFiles (Replacements r)])).
Proof.
  unfold run_block, after_run, bind, getSymbolIndexMgr, emit, store_results,
    getHeaders, getReplacements, return_, undefined, outs_write, ret.
  cbn -[report newline append].
  destruct (Z.eqb (ExitStatus _) 0); cbn -[report newline append].
  - destruct (Quiet O); cbn -[report newline append].
    + destruct (STDINMode O); [destruct Code as [[File Buffer]|]|]; reflexivity.
    + rewrite report_loop. cbn -[report newline append].
      destruct (STDINMode O); [destruct Code as [[File Buffer]|]|]; reflexivity.
  - reflexivity.
Qed.

(** The search, ancestor by ancestor. *)
Lemma search_upwards_found (bound : nat)
    (load : string -> ErrorOr (list SymbolInfo)) (Directory : Path)
    (Name : string) (DB : list SymbolInfo) :
  search_upwards bound load Directory Name = Ok DB ->
  exists A, In A (ancestors_from bound Directory)
            /\ load (native (A ++ [Name])) = Ok DB.
Proof.
  revert Directory; induction bound as [|bound IH]; intros Directory; simpl;
    destruct (load (native (Directory ++ [Name]))) as [DB'|EC] eqn:L;
    intros H; try discriminate.
  - injection H as <-. eauto.
  - injection H as <-. eauto.
  - destruct (IH _ H) as (A & HA & HL). eauto.
Qed.

Lemma search_upwards_failed (bound : nat)
    (load : string -> ErrorOr (list SymbolInfo)) (Directory : Path)
    (Name : string) (EC : error_code) :
  search_upwards bound load Directory Name = Err EC ->
  EC = NotFoundError
  /\ forall A, In A (ancestors_from bound Directory) ->
               exists EC', load (native (A ++ [Name])) = Err EC'.
Proof.
  revert Directory; induction bound as [|bound IH]; intros Directory; simpl;
    destruct (load (native (Directory ++ [Name]))) as [DB'|EC0] eqn:L;
    intros H; try discriminate.
  - injection H as <-. split; auto. intros A [<-|[]]. eauto.
  - destruct (IH _ H) as (-> & HA). split; auto.
    intros A [<-|HIn]; eauto.
Qed.

(* ===================================================================== *)
(** ** The driver as a whole *)
(* ===================================================================== *)

Lemma length_zero (Str : string) : String.length Str = 0 <-> Str = "".
Proof. destruct Str; simpl; split; intros H; auto; discriminate. Qed.

(** Case analysis over the branches of [includeFixerMain]. *)
Ltac split_on_scrutinee :=
  match goal with
  | |- context [match ?x with _ => _ end] =>
      lazymatch x with
      | context [match _ with _ => _ end] => fail
      | _ => destruct x eqn:?
      end
  end.

Ltac driver_cases O E :=
  destruct O as [Format Database Minimize BeQuiet Stdin FallbackStyle Sources];
  destruct E as [StdinBuffer Absolute Load Tool Apply Overwrite];
  unfold main, includeFixerMain, stdin_block, data_source_block,
    bind, assert_, emit, errs_write, outs_write, addSymbolIndex, return_, ret,
    front, undefined, initial in *;
  cbn [DatabaseFormat Input MinimizeIncludePaths Quiet STDINMode Style
       SourcePathList getSTDIN getAbsolutePath createFromFile run
       applyAllReplacements overwriteChangedFiles] in *;
  repeat first
    [ rewrite run_block_spec; unfold after_run
    | progress cbn -[report newline append fixed_symbols createFromDirectory
                     Z.eqb Nat.eqb String.length run_block StdSet.insert
                     parent_path native ancestors]
    | split_on_scrutinee ].

Ltac props :=
  repeat match goal with
    | H : Nat.eqb _ _ = true |- _ => apply Nat.eqb_eq in H
    | H : Nat.eqb _ _ = false |- _ => apply Nat.eqb_neq in H
    | H : negb _ = true |- _ => apply negb_true_iff in H
    | H : negb _ = false |- _ => apply negb_false_iff in H
    | H : Z.eqb _ _ = true |- _ => apply Z.eqb_eq in H
    | H : Z.eqb _ _ = false |- _ => apply Z.eqb_neq in H
    | H : String.length _ = 0 |- _ => apply length_zero in H
    | H : String.length _ <> 0 |- _ => rewrite length_zero in H
    | H : List.length (_ :: ?l) = 1 |- _ =>
        destruct l; [clear H | discriminate H]
    | H : List.length [] = 1 |- _ => discriminate H
    end.

Ltac fields :=
  cbn [DatabaseFormat Input MinimizeIncludePaths Quiet STDINMode Style
       SourcePathList getSTDIN getAbsolutePath createFromFile run
       applyAllReplacements overwriteChangedFiles invocation List.length] in *.

Ltac side := fields; solve [eauto | congruence | discriminate | lia].

Ltac entered_and_loads :=
  [> solve [constructor; side] | solve [econstructor; side] | try side ..].

Ltac close_run :=
  match goal with
  | |- Run ?O ?E _ =>
      first
        [ solve [apply run_aborted; side]
        | solve [eapply run_stdin_error; side]
        | solve [apply run_stdin_empty; side]
        | solve [apply run_no_source; side]
        | solve [eapply (@run_load_error O E None [] [_]); entered_and_loads]
        | solve [eapply (@run_load_error O E (Some (_, _)) [_; _] [_]);
                 entered_and_loads]
        | solve [eapply (@run_tool_died O E None [] []); entered_and_loads]
        | solve [eapply (@run_tool_died O E None [] [_]); entered_and_loads]
        | solve [eapply (@run_tool_died O E (Some (_, _)) [_; _] []);
                 entered_and_loads]
        | solve [eapply (@run_tool_died O E (Some (_, _)) [_; _] [_]);
                 entered_and_loads]
        | solve [eapply (@run_patched O E _ _ [_; _] []); entered_and_loads]
        | solve [eapply (@run_patched O E _ _ [_; _] [_]); entered_and_loads]
        | solve [eapply (@run_rewritten O E []); entered_and_loads]
        | solve [eapply (@run_rewritten O E [_]); entered_and_loads] ]
  end.

(** The relation covers the program: every run of [main] is one of its
    paths. *)
Lemma main_shape (O : Options) (E : Env) : Run O E (main O E).
Proof.
  driver_cases O E; props; subst; close_run.
Qed.

Ltac invert_paths :=
  repeat match goal with
    | H : Entered _ _ _ _ |- _ => inversion H; clear H; subst
    | H : Loads _ _ _ _ |- _ => inversion H; clear H; subst
    end.

Ltac by_paths O E :=
  unfold fatal_load_failure, exit_of, final;
  generalize (main_shape O E); generalize (main O E);
  let r := fresh "r" in
  let Hr := fresh "Hr" in
  intros r Hr; destruct Hr; invert_paths;
  cbn [fst snd errs outs SymbolIndexMgr Headers Replacements trace initial
       app In forallb is_processing negb andb List.length ToolIndexMgr
       MappedVirtualFile invocation] in *.

Ltac tidy :=
  repeat match goal with
    | H : _ /\ _ |- _ => destruct H
    | H : exists _, _ |- _ => destruct H
    | H : _ \/ _ |- _ => destruct H
    | H : False |- _ => destruct H
    | H : ?a = ?b :> Event |- _ => first [discriminate H | injection H as H]
    | H : ?a = ?b :> Outcome |- _ => first [discriminate H | injection H as H]
    | H : ?a = ?b :> ErrorOr _ |- _ =>
        first [discriminate H | injection H as H | rewrite H in *; clear H]
    | H : ?x = ?x |- _ => clear H
    | H : ?a = ?b :> list string |- _ => first [discriminate H | injection H as H]
    | H1 : ?x = _, H2 : ?x = _ |- _ => rewrite H1 in H2
    end; subst.

Ltac here := cbn [In]; repeat first [left; reflexivity | right].

Lemma createFromDirectory_found
    (load : string -> ErrorOr (list SymbolInfo)) (Directory : Path)
    (Name : string) (DB : list SymbolInfo) :
  createFromDirectory load Directory Name = Ok DB ->
  exists A, In A (ancestors Directory) /\ load (native (A ++ [Name])) = Ok DB.
Proof. apply search_upwards_found. Qed.

Lemma createFromDirectory_failed
    (load : string -> ErrorOr (list SymbolInfo)) (Directory : Path)
    (Name : string) (EC : error_code) :
  createFromDirectory load Directory Name = Err EC ->
  EC = NotFoundError
  /\ forall A, In A (ancestors Directory) ->
               exists EC', load (native (A ++ [Name])) = Err EC'.
Proof. apply search_upwards_failed. Qed.

(** C3: with the yaml backend, a non-empty [-input] is loaded as the
    database file; an empty one makes the driver search
    [find_all_symbols_db.yaml] from the directory of the first source path
    through its ancestors.  A failure of either is reported on the error
    stream and ends the run with code 1 before the tool is run on any
    file. *)
Theorem yaml_data_source (O : Options) (E : Env) :
  DatabaseFormat O = yaml ->
  passes_stdin_block O E ->
  (Input O <> "" ->
     In (LoadYamlFile (Input O)) (trace (final O E))
     /\ (forall Directory Name,
           ~ In (SearchYamlFile Directory Name) (trace (final O E)))
     /\ (forall DB, createFromFile E (Input O) = Ok DB ->
                    SymbolIndexMgr (final O E) = [YamlSymbolIndex DB])
     /\ (forall EC, createFromFile E (Input O) = Err EC ->
                    fatal_load_failure O E EC))
  /\ (Input O = "" ->
      forall File Rest, SourcePathList O = File :: Rest ->
        In (SearchYamlFile (parent_path (getAbsolutePath E File))
                           "find_all_symbols_db.yaml") (trace (final O E))
        /\ (forall FilePath, ~ In (LoadYamlFile FilePath) (trace (final O E)))
        /\ (forall DB,
              createFromDirectory (createFromFile E)
                (parent_path (getAbsolutePath E File))
                "find_all_symbols_db.yaml" = Ok DB ->
              SymbolIndexMgr (final O E) = [YamlSymbolIndex DB]
              /\ exists A,
                   In A (ancestors (parent_path (getAbsolutePath E File)))
                   /\ createFromFile E
                        (native (A ++ ["find_all_symbols_db.yaml"])) = Ok DB)
        /\ (forall EC,
              createFromDirectory (createFromFile E)
                (parent_path (getAbsolutePath E File))
                "find_all_symbols_db.yaml" = Err EC ->
              fatal_load_failure O E EC
              /\ forall A,
                   In A (ancestors (parent_path (getAbsolutePath E File))) ->
                   exists EC',
                     createFromFile E
                       (native (A ++ ["find_all_symbols_db.yaml"])) = Err EC')).
Proof.
  intros Hyaml Hpass.
  revert Hpass; unfold passes_stdin_block; by_paths O E; intros Hpass.
  all: try solve [tidy; congruence].
  all: split; [intros Hinput | intros Hinput File' Rest' Hsources].
  all: try solve [tidy; congruence].
  all: repeat split; intros; tidy; auto; try congruence; try discriminate.
  all: try solve [eapply createFromDirectory_found; eauto].
  all: try solve [eapply createFromDirectory_failed; eauto].
  all: intro; tidy.
Qed.

Lemma yaml_data_source_witness :
  fatal_load_failure
    (Scenario.options yaml "" false false ["main.cc"])
    (Scenario.env (Ok "Foo f;") Scenario.no_files Scenario.tool_ok false)
    NotFoundError
  /\ SymbolIndexMgr
       (final (Scenario.options yaml "" false false ["main.cc"])
              (Scenario.env (Ok "Foo f;") Scenario.files Scenario.tool_ok false))
     = [YamlSymbolIndex [Scenario.db_record]]
  /\ fatal_load_failure
       (Scenario.options yaml "db.yaml" false true ["main.cc"])
       (Scenario.env (Ok "Foo f;") Scenario.files Scenario.tool_ok false)
       (mk_error_code "No such file or directory").
Proof.
  split; [|split].
  - refine (proj1 (proj2 (proj2 (proj2 (proj2
      (yaml_data_source (Scenario.options yaml "" false false ["main.cc"])
         (Scenario.env (Ok "Foo f;") Scenario.no_files Scenario.tool_ok false)
         eq_refl (or_introl eq_refl)) eq_refl "main.cc" [] eq_refl))) _ eq_refl)).
  - refine (proj1 (proj1 (proj2 (proj2 (proj2
      (yaml_data_source (Scenario.options yaml "" false false ["main.cc"])
         (Scenario.env (Ok "Foo f;") Scenario.files Scenario.tool_ok false)
         eq_refl (or_introl eq_refl)) eq_refl "main.cc" [] eq_refl))) _ eq_refl)).
  - refine (proj2 (proj2 (proj2 (proj1
      (yaml_data_source (Scenario.options yaml "db.yaml" false true ["main.cc"])
         (Scenario.env (Ok "Foo f;") Scenario.files Scenario.tool_ok false)
         eq_refl (or_intror (conj eq_refl (ex_intro _ "Foo f;" (conj eq_refl _)))))
      _))) _ eq_refl); discriminate.
Defined.

(** C4: [main] returns 0 or 1 and nothing else.  It returns 1 when the tool
    run fails, when the yaml database cannot be loaded or found, and when a
    changed file cannot be written; it returns 0 when the tool run succeeds
    and no write fails.  The one other way to 1 is a failed read of the
    standard input. *)
Theorem exit_codes (O : Options) (E : Env) :
  (forall code, exit_of O E = Exit code -> code = 0%Z \/ code = 1%Z)
  /\ (forall Invocation,
        In (ToolRun Invocation) (trace (final O E)) ->
        ExitStatus (run E Invocation) <> 0%Z -> exit_of O E = Exit 1)
  /\ (forall EC,
        In (LoadYamlFile (Input O)) (trace (final O E)) ->
        createFromFile E (Input O) = Err EC -> exit_of O E = Exit 1)
  /\ (forall Directory Name EC,
        In (SearchYamlFile Directory Name) (trace (final O E)) ->
        createFromDirectory (createFromFile E) Directory Name = Err EC ->
        exit_of O E = Exit 1)
  /\ (forall Replaces,
        In (RewriteFiles Replaces) (trace (final O E)) ->
        overwriteChangedFiles E Replaces = true -> exit_of O E = Exit 1)
  /\ (forall Invocation,
        In (ToolRun Invocation) (trace (final O E)) ->
        ExitStatus (run E Invocation) = 0%Z ->
        (forall Replaces, In (RewriteFiles Replaces) (trace (final O E)) ->
                          overwriteChangedFiles E Replaces = false) ->
        exit_of O E = Exit 0)
  /\ (exit_of O E = Exit 1 ->
        (exists EC, STDINMode O = true /\ getSTDIN E = Err EC)
        \/ (exists EC, DatabaseFormat O = yaml
                       /\ errs (final O E)
                          = ("Couldn't find YAML db: " ++ message EC ++ newline)%string)
        \/ (exists Invocation, In (ToolRun Invocation) (trace (final O E))
                               /\ ExitStatus (run E Invocation) <> 0%Z)
        \/ (exists Replaces, In (RewriteFiles Replaces) (trace (final O E))
                             /\ overwriteChangedFiles E Replaces = true)).
Proof.
  by_paths O E.
  all: repeat split; intros; tidy; auto; try congruence; try discriminate.
  all: try (destruct (overwriteChangedFiles _ _) eqn:Hwrite; cbn [Z.b2z] in *;
            tidy; auto; try congruence; try discriminate).
  all: try solve [left; eauto].
  all: try solve [right; left; eauto].
  all: try solve [right; right; left; eexists; split; [here|]; eauto].
  all: try solve [right; right; right; eexists; split; [here|]; eauto].
  all: match goal with
       | Hall : forall Rs, _ -> overwriteChangedFiles _ Rs = false,
         Hw : overwriteChangedFiles _ _ = true |- _ =>
           rewrite Hall in Hw by here; discriminate
       end.
Qed.

Lemma exit_codes_witness :
  exit_of (Scenario.options fixed "Foo=foo.h" false false ["main.cc"])
          (Scenario.env (Ok "") Scenario.no_files Scenario.tool_dies false)
  = Exit 1
  /\ exit_of (Scenario.options fixed "Foo=foo.h" false false ["main.cc"])
             (Scenario.env (Ok "") Scenario.no_files Scenario.tool_ok true)
     = Exit 1
  /\ exit_of (Scenario.options fixed "Foo=foo.h" false false ["main.cc"])
             (Scenario.env (Ok "") Scenario.no_files Scenario.tool_ok false)
     = Exit 0.
Proof.
  split; [|split].
  - refine (proj1 (proj2
      (exit_codes (Scenario.options fixed "Foo=foo.h" false false ["main.cc"])
         (Scenario.env (Ok "") Scenario.no_files Scenario.tool_dies false)))
      _ (or_introl eq_refl) _).
    discriminate.
  - refine (proj1 (proj2 (proj2 (proj2 (proj2
      (exit_codes (Scenario.options fixed "Foo=foo.h" false false ["main.cc"])
         (Scenario.env (Ok "") Scenario.no_files Scenario.tool_ok true))))))
      _ (or_intror (or_introl eq_refl)) eq_refl).
  - refine (proj1 (proj2 (proj2 (proj2 (proj2 (proj2
      (exit_codes (Scenario.options fixed "Foo=foo.h" false false ["main.cc"])
         (Scenario.env (Ok "") Scenario.no_files Scenario.tool_ok false)))))))
      _ (or_introl eq_refl) eq_refl _).
    intros Replaces _. reflexivity.
Defined.


(** C6: the set of headers holds every header once, in lexicographic
    order of the path, and the reporting loop walks it in that order. *)
Theorem headers_deduplicated_and_ordered (O : Options) (E : Env) :
  NoDup (Headers (final O E))
  /\ StronglySorted StdSet.lt (Headers (final O E))
  /\ (forall Invocation,
        In (ToolRun Invocation) (trace (final O E)) ->
        (forall h, In h (Headers (final O E))
                   <-> In h (InsertedHeaders (run E Invocation)))
        /\ (ExitStatus (run E Invocation) = 0%Z -> Quiet O = false ->
            errs (final O E) = report (Headers (final O E)))).
Proof.
  assert (forall I, StronglySorted StdSet.lt (tool_headers E I)) as Hsorted
    by (intros I; apply inserts_sorted; constructor).
  assert (forall I h, In h (tool_headers E I) <-> In h (InsertedHeaders (run E I)))
    as Hin by (intros I h; unfold tool_headers; rewrite inserts_In;
               simpl; intuition).
  by_paths O E.
  all: split; [|split]; auto using sorted_NoDup; try solve [constructor].
  all: intros Invocation HI; tidy; split; auto; intros Hok Hquiet;
    try congruence.
  all: unfold reported; now rewrite Hquiet.
Qed.

Lemma headers_deduplicated_and_ordered_witness :
  Headers (final (Scenario.options fixed "Foo=foo.h" false false ["main.cc"])
                 (Scenario.env (Ok "") Scenario.no_files Scenario.tool_ok false))
  = ["<a.h>"; "<b.h>"]
  /\ errs (final (Scenario.options fixed "Foo=foo.h" false false ["main.cc"])
                 (Scenario.env (Ok "") Scenario.no_files Scenario.tool_ok false))
     = report ["<a.h>"; "<b.h>"].
Proof.
  split; [reflexivity|].
  refine (proj2 (proj2 (proj2
    (headers_deduplicated_and_ordered
       (Scenario.options fixed "Foo=foo.h" false false ["main.cc"])
       (Scenario.env (Ok "") Scenario.no_files Scenario.tool_ok false)))
    _ (or_introl eq_refl)) eq_refl eq_refl).
Defined.

(** The reporting loop adds no line terminator of its own. *)
Lemma count_newlines_app (a b : string) :
  count_newlines (a ++ b)%string = count_newlines a + count_newlines b.
Proof. induction a as [|c a IH]; simpl; auto. rewrite IH. lia. Qed.

Lemma report_newlines (Hs : list string) :
  count_newlines (report Hs) = list_sum (map count_newlines Hs).
Proof.
  induction Hs as [|Header Hs IH]; auto.
  cbn [report fold_right map list_sum].
  change (fold_right _ "" Hs) with (report Hs).
  now rewrite !count_newlines_app, IH.
Qed.

(** C7: with two headers added and quiet mode off, the error stream holds
    the two messages on one unterminated line: the loop writes no line
    terminator, unlike the other messages of the driver. *)
Theorem report_lines_run_together :
  let O := Scenario.options fixed "Foo=foo.h" false false ["main.cc"] in
  let E := Scenario.env (Ok "") Scenario.no_files Scenario.tool_ok false in
  exit_of O E = Exit 0
  /\ Headers (final O E) = ["<a.h>"; "<b.h>"]
  /\ errs (final O E) = "Added #include <a.h>Added #include <b.h>"
  /\ count_newlines (errs (final O E)) = 0.
Proof. repeat split. Qed.

(** X8: Quiet mode writes none of the messages. *)
Lemma quiet_reports_nothing (O : Options) (E : Env) (Invocation : ToolInvocation) :
  Quiet O = true ->
  In (ToolRun Invocation) (trace (final O E)) ->
  ExitStatus (run E Invocation) = 0%Z ->
  errs (final O E) = "".
Proof.
  intros Hquiet. by_paths O E; intros HI Hok; tidy; try congruence.
  all: unfold reported; now rewrite Hquiet.
Qed.

(** C8: in [-stdin] mode no file is rewritten; the replacements collected
    by the tool run are applied to the buffer read from the standard input
    and the patched text is what the output stream receives. *)
Theorem stdin_mode_patches_buffer (O : Options) (E : Env) :
  STDINMode O = true ->
  (forall Replaces, ~ In (RewriteFiles Replaces) (trace (final O E)))
  /\ (forall Invocation,
        In (ToolRun Invocation) (trace (final O E)) ->
        exists File Code,
          getSTDIN E = Ok Code /\ SourcePathList O = [File]
          /\ MappedVirtualFile Invocation = Some (File, Code)
          /\ Replacements (final O E) = CollectedReplacements (run E Invocation)
          /\ (ExitStatus (run E Invocation) = 0%Z ->
              exit_of O E = Exit 0
              /\ outs (final O E)
                 = applyAllReplacements E Code (Replacements (final O E))
              /\ In (ApplyToBuffer Code (Replacements (final O E)))
                    (trace (final O E)))
          /\ (ExitStatus (run E Invocation) <> 0%Z -> outs (final O E) = "")).
Proof.
  intros Hmode. by_paths O E.
  all: try congruence.
  all: split; [intros Replaces Hin; tidy | intros Invocation Hin; tidy].
  all: try congruence.
  all: do 2 eexists; repeat split; eauto; intros; try congruence; here.
Qed.

Lemma stdin_mode_patches_buffer_witness :
  outs (final (Scenario.options fixed "Foo=foo.h" true true ["main.cc"])
              (Scenario.env (Ok "Foo f;") Scenario.no_files Scenario.tool_ok false))
  = "#include <a.h> Foo f;"
  /\ forall Replaces,
       ~ In (RewriteFiles Replaces)
            (trace (final (Scenario.options fixed "Foo=foo.h" true true ["main.cc"])
                          (Scenario.env (Ok "Foo f;") Scenario.no_files
                                        Scenario.tool_ok false))).
Proof.
  split.
  - reflexivity.
  - exact (proj1 (stdin_mode_patches_buffer
             (Scenario.options fixed "Foo=foo.h" true true ["main.cc"])
             (Scenario.env (Ok "Foo f;") Scenario.no_files Scenario.tool_ok false)
             eq_refl)).
Defined.

(** C10, as the code has it: a run never holds more than one index; a run
    that reaches the tool has installed exactly one, the in-memory index
    for [-db=fixed] and the yaml index for [-db=yaml], and the tool is
    given that one; a run that ends before the tool has installed none. *)
Theorem at_most_one_backend (O : Options) (E : Env) :
  List.length (SymbolIndexMgr (final O E)) <= 1
  /\ (forall Invocation,
        In (ToolRun Invocation) (trace (final O E)) ->
        ToolIndexMgr Invocation = SymbolIndexMgr (final O E)
        /\ match DatabaseFormat O with
           | fixed =>
               SymbolIndexMgr (final O E)
               = [InMemorySymbolIndex (fixed_symbols (Input O))]
           | yaml => exists DB, SymbolIndexMgr (final O E) = [YamlSymbolIndex DB]
           end)
  /\ ((forall Invocation, ~ In (ToolRun Invocation) (trace (final O E))) ->
      SymbolIndexMgr (final O E) = []).
Proof.
  by_paths O E.
  all: split; [auto | split]; [intros Invocation Hin; tidy | intros Hnone].
  all: try reflexivity.
  all: try solve [exfalso; eapply Hnone; here].
  all: split; [reflexivity|].
  all: match goal with H : DatabaseFormat _ = _ |- _ => rewrite H end; eauto.
Qed.

Lemma at_most_one_backend_witness :
  SymbolIndexMgr
    (final (Scenario.options yaml "db.yaml" false false ["main.cc"])
           (Scenario.env (Ok "") Scenario.files Scenario.tool_ok false))
  = [].
Proof.
  refine (proj2 (proj2
    (at_most_one_backend
       (Scenario.options yaml "db.yaml" false false ["main.cc"])
       (Scenario.env (Ok "") Scenario.files Scenario.tool_ok false))) _).
  intros Invocation [H|[]]. discriminate H.
Defined.

(** Two runs that install no index at all: [-stdin] with an empty input,
    and a yaml database that cannot be loaded. *)
Lemma no_backend_installed :
  main (Scenario.options fixed "Foo=foo.h" false true ["main.cc"])
       (Scenario.env (Ok "") Scenario.no_files Scenario.tool_ok false)
  = (Exit 0, mkState "" "" [] [] [] [ReadStdin])
  /\ List.length
       (SymbolIndexMgr
          (final (Scenario.options fixed "Foo=foo.h" false true ["main.cc"])
                 (Scenario.env (Ok "") Scenario.no_files Scenario.tool_ok false)))
     <> 1
  /\ SymbolIndexMgr
       (final (Scenario.options yaml "db.yaml" false false ["main.cc"])
              (Scenario.env (Ok "") Scenario.no_files Scenario.tool_ok false))
     = [].
Proof. repeat split. discriminate. Qed.

(** C5: in [-stdin] mode a run with no source path or with more than one
    fails the assertion at the head of the block: it is aborted before
    anything is read, loaded, run or written. *)
Theorem stdin_requires_one_unit (O : Options) (E : Env) :
  STDINMode O = true ->
  List.length (SourcePathList O) <> 1 ->
  main O E = (Aborted, initial).
Proof.
  intros Hmode Hlen.
  unfold main, includeFixerMain, stdin_block, bind, assert_.
  rewrite Hmode. destruct (Nat.eqb_spec (List.length (SourcePathList O)) 1).
  - contradiction.
  - reflexivity.
Qed.

Lemma stdin_requires_one_unit_witness :
  main (Scenario.options fixed "Foo=foo.h" false true ["a.cc"; "b.cc"])
       (Scenario.env (Ok "Foo f;") Scenario.no_files Scenario.tool_ok false)
  = (Aborted, initial)
  /\ main (Scenario.options fixed "Foo=foo.h" false true [])
          (Scenario.env (Ok "Foo f;") Scenario.no_files Scenario.tool_ok false)
     = (Aborted, initial).
Proof.
  split; apply stdin_requires_one_unit; simpl; auto; lia.
Defined.

(** C2: in [-stdin] mode with its one source path, an empty standard input
    ends the run with code 0: nothing is written to either stream, no
    index is built, and the only event is the read of the input. *)
Theorem stdin_empty_input_short_circuit (O : Options) (E : Env) :
  STDINMode O = true ->
  List.length (SourcePathList O) = 1 ->
  getSTDIN E = Ok "" ->
  main O E = (Exit 0, mkState "" "" [] [] [] [ReadStdin]).
Proof.
  intros Hmode Hlen Hin.
  unfold main, includeFixerMain, stdin_block, bind, assert_.
  rewrite Hmode, Hlen, Hin. reflexivity.
Qed.

Lemma stdin_empty_input_short_circuit_witness :
  main (Scenario.options yaml "" false true ["main.cc"])
       (Scenario.env (Ok "") Scenario.no_files Scenario.tool_ok false)
  = (Exit 0, mkState "" "" [] [] [] [ReadStdin]).
Proof.
  apply stdin_empty_input_short_circuit; reflexivity.
Defined.

(* ===================================================================== *)
(** ** Further properties of the fixed data source *)
(* ===================================================================== *)

Lemma find_app_none (C : ascii) (a b : string) :
  StringRef.find C (a ++ b)%string = None <->
  StringRef.find C a = None /\ StringRef.find C b = None.
Proof.
  induction a as [|x a IH]; simpl.
  - intuition.
  - destruct (Ascii.eqb x C).
    + intuition discriminate.
    + destruct (StringRef.find C (a ++ b)%string), (StringRef.find C a);
        intuition; try discriminate.
Qed.

Lemma take_drop (N : nat) (Str : string) :
  Str = (StringRef.take_front N Str ++ StringRef.drop_front N Str)%string.
Proof.
  unfold StringRef.take_front.
  revert Str; induction N as [|N IH]; intros [|c Str]; simpl; auto.
  now rewrite <- IH.
Qed.

Lemma absent_take (C : ascii) (N : nat) (Str : string) :
  absent C Str -> absent C (StringRef.take_front N Str).
Proof.
  unfold absent. intros H. rewrite (take_drop N Str) in H.
  now apply find_app_none in H.
Qed.

Lemma absent_drop (C : ascii) (N : nat) (Str : string) :
  absent C Str -> absent C (StringRef.drop_front N Str).
Proof.
  unfold absent. intros H. rewrite (take_drop N Str) in H.
  now apply find_app_none in H.
Qed.

Lemma absent_trim (C : ascii) (Str : string) :
  absent C Str -> absent C (StringRef.trim Str).
Proof.
  unfold absent. intros H.
  destruct (trim_decompose Str) as (l & r & Hs & _).
  rewrite Hs in H. apply find_app_none in H as [_ H].
  now apply find_app_none in H.
Qed.

(** Searching for a one-character string is searching for the character. *)
Lemma find_str_char (C : ascii) (Str : string) :
  StringRef.find_str (String C "") Str = StringRef.find C Str.
Proof.
  induction Str as [|c Str IH]; cbn [StringRef.find_str StringRef.find prefix].
  - reflexivity.
  - destruct (ascii_dec C c) as [->|Hc].
    + simpl. rewrite Ascii.eqb_refl. now destruct Str.
    + simpl. rewrite IH. destruct (Ascii.eqb_spec c C); [congruence | reflexivity].
Qed.

(** No piece of a split holds the separator. *)
Lemma pieces_without_separator (C : ascii) (Str Piece : string) :
  In Piece (StringRef.split_into (String C "") Str) -> absent C Piece.
Proof.
  remember (String.length Str) as n eqn:Hn. revert Str Hn.
  induction n as [n IH] using lt_wf_ind. intros Str ->.
  rewrite split_into_unfold by discriminate. rewrite find_str_char.
  destruct (StringRef.find C Str) as [Idx|] eqn:F.
  - intros [<-|Hin].
    + now apply find_first_occurrence.
    + assert (StringRef.find_str (String C "") Str = Some Idx) as F'
        by now rewrite find_str_char.
      apply find_str_bound in F'. simpl in F'.
      eapply IH; [|reflexivity|exact Hin].
      rewrite drop_front_length. simpl. lia.
  - intros [<-|[]]. exact F.
Qed.

(** A character that is not in the string is in none of its pieces. *)
Lemma pieces_keep_absent (C : ascii) (Separator Str Piece : string) :
  Separator <> "" -> absent C Str ->
  In Piece (StringRef.split_into Separator Str) -> absent C Piece.
Proof.
  intros Hsep.
  remember (String.length Str) as n eqn:Hn. revert Str Hn.
  induction n as [n IH] using lt_wf_ind. intros Str -> Habs.
  rewrite split_into_unfold by assumption.
  destruct (StringRef.find_str Separator Str) as [Idx|] eqn:F.
  - intros [<-|Hin].
    + now apply absent_take.
    + apply find_str_bound in F.
      assert (1 <= String.length Separator)
        by (destruct Separator; [congruence | simpl; lia]).
      eapply IH; [|reflexivity| |exact Hin].
      * rewrite drop_front_length. lia.
      * now apply absent_drop.
  - intros [<-|[]]. exact Habs.
Qed.

Lemma split_sides_keep_absent (C Separator : ascii) (Str : string) :
  absent C Str ->
  absent C (fst (StringRef.split Separator Str))
  /\ absent C (snd (StringRef.split Separator Str)).
Proof.
  intros H. unfold StringRef.split.
  destruct (StringRef.find Separator Str) as [Idx|]; simpl.
  - split; [now apply absent_take | now apply absent_drop].
  - split; [exact H | reflexivity].
Qed.

Lemma split_name_without_separator (Separator : ascii) (Str : string) :
  absent Separator (fst (StringRef.split Separator Str)).
Proof.
  unfold StringRef.split.
  destruct (StringRef.find Separator Str) as [Idx|] eqn:F; simpl.
  - now apply find_first_occurrence.
  - exact F.
Qed.

(** X11: The separators of the literal never end up inside a record: a name
    holds neither [;] nor [=], a header neither [;] nor [,]. *)
Theorem fixed_records_hold_no_separator (Input : string) (R : SymbolInfo) :
  In R (fixed_symbols Input) ->
  absent ";" (Name R) /\ absent "=" (Name R)
  /\ absent ";" (FilePath R) /\ absent "," (FilePath R).
Proof.
  rewrite fixed_symbols_flat_map. intros H.
  apply in_flat_map in H as (Pair & HPair & HR).
  apply pieces_without_separator in HPair.
  unfold fixed_pair_body in HR. rewrite fixed_headers_loop_app in HR.
  simpl in HR. apply in_map_iff in HR as (Header & <- & HHeader).
  destruct (split_sides_keep_absent ";" "=" Pair HPair) as [Hname Hrhs].
  simpl. repeat split; apply absent_trim; auto.
  - apply split_name_without_separator.
  - eapply pieces_keep_absent; [|exact Hrhs|exact HHeader]. discriminate.
  - eapply pieces_without_separator; exact HHeader.
Qed.

Lemma fixed_records_hold_no_separator_witness :
  absent "=" "a" /\ absent "," "b=c".
Proof.
  destruct (fixed_records_hold_no_separator "a=b=c;d"
              (mkSymbolInfo "a" Unknown "b=c" 1%Z [])) as (_ & Hn & _ & Hh).
  - simpl. auto.
  - split; assumption.
Defined.

(** X12: No entry is dropped: every piece between two [;] gives at least one
    record, so the index is never empty, not even for an empty [-input]. *)
Theorem fixed_entries_all_counted (Input : string) :
  1 <= List.length (StringRef.split_into ";" Input)
  /\ List.length (StringRef.split_into ";" Input)
     <= List.length (fixed_symbols Input).
Proof.
  split.
  - pose proof (split_into_nonempty ";" Input).
    destruct (StringRef.split_into ";" Input); simpl; [congruence | lia].
  - rewrite fixed_symbols_flat_map.
    induction (StringRef.split_into ";" Input) as [|Pair Ps IH]; simpl; auto.
    rewrite length_app.
    assert (1 <= List.length (fixed_pair_body [] Pair)); [|lia].
    unfold fixed_pair_body. rewrite fixed_headers_loop_app. simpl.
    rewrite length_map.
    pose proof (split_into_nonempty "," (snd (StringRef.split "=" Pair))).
    destruct (StringRef.split_into "," _); simpl; [congruence | lia].
Qed.

Lemma find_app_first (C : ascii) (a b : string) :
  absent C a ->
  StringRef.find C (a ++ String C b)%string = Some (String.length a).
Proof.
  unfold absent. induction a as [|x a IH]; simpl.
  - now rewrite Ascii.eqb_refl.
  - destruct (Ascii.eqb x C); [discriminate|].
    destruct (StringRef.find C a); [discriminate|].
    intros _. now rewrite IH.
Qed.

Lemma take_front_app (a b : string) :
  StringRef.take_front (String.length a) (a ++ b)%string = a.
Proof.
  unfold StringRef.take_front. induction a as [|x a IH]; simpl.
  - now destruct b.
  - now rewrite IH.
Qed.

Lemma drop_front_app (N : nat) (a b : string) :
  StringRef.drop_front (String.length a + N) (a ++ b)%string
  = StringRef.drop_front N b.
Proof. induction a as [|x a IH]; simpl; auto. Qed.

Lemma concat_cons (C : ascii) (x y : string) (l : list string) :
  String.concat (String C "") (x :: y :: l)
  = (x ++ String C (String.concat (String C "") (y :: l)))%string.
Proof. reflexivity. Qed.

Lemma absent_concat (C D : ascii) (l : list string) :
  C <> D -> (forall x, In x l -> absent C x) ->
  absent C (String.concat (String D "") l).
Proof.
  intros Hne. unfold absent.
  induction l as [|x [|y l] IH]; intros Hall.
  - reflexivity.
  - apply Hall. now left.
  - rewrite concat_cons. apply find_app_none. split; [apply Hall; now left|].
    cbn [StringRef.find]. destruct (Ascii.eqb_spec D C); [congruence|].
    rewrite IH; auto. intros z Hz. apply Hall. now right.
Qed.

(** Splitting what was joined gives the pieces back, as long as no piece
    holds the separator. *)
Lemma split_into_concat (C : ascii) (l : list string) :
  l <> [] -> (forall x, In x l -> absent C x) ->
  StringRef.split_into (String C "") (String.concat (String C "") l) = l.
Proof.
  induction l as [|x [|y l] IH]; intros Hne Hall; [congruence| |].
  - cbn [String.concat]. rewrite split_into_unfold by discriminate.
    rewrite find_str_char. rewrite (Hall x); auto. now left.
  - rewrite concat_cons. rewrite split_into_unfold by discriminate.
    rewrite find_str_char.
    rewrite find_app_first by (apply Hall; now left).
    rewrite take_front_app, drop_front_app. cbn [StringRef.drop_front String.length].
    rewrite IH; auto; [discriminate|].
    intros z Hz. apply Hall. now right.
Qed.

Lemma plain_entry_parsed (Entry : string * list string) :
  plain_entry Entry ->
  absent ";" (render_entry Entry)
  /\ fixed_pair_body [] (render_entry Entry) = table_records [Entry].
Proof.
  destruct Entry as [name headers]. unfold plain_entry, render_entry.
  cbn [fst snd]. intros (Hne & Heq & Hsemi & Hheaders).
  change ("=" ++ String.concat "," headers)%string
    with (String "="%char (String.concat "," headers)).
  split.
  - apply find_app_none. split; [exact Hsemi|]. simpl.
    rewrite (absent_concat ";" ","); [reflexivity|discriminate|].
    intros h Hh. now apply Hheaders.
  - unfold fixed_pair_body, StringRef.split.
    rewrite find_app_first by exact Heq.
    rewrite take_front_app, drop_front_app.
    cbn [StringRef.drop_front fst snd].
    rewrite split_into_concat; auto; [|intros h Hh; now apply Hheaders].
    rewrite fixed_headers_loop_app. simpl. now rewrite app_nil_r.
Qed.

(** X13: Round trip: a table written as a literal, with at least one entry and
    plain entries, is parsed back into exactly its records, in order. *)
Theorem fixed_parses_rendered_table (Table : list (string * list string)) :
  Table <> [] ->
  (forall Entry, In Entry Table -> plain_entry Entry) ->
  fixed_symbols (render_literal Table) = table_records Table.
Proof.
  intros Hne Hplain. rewrite fixed_symbols_flat_map. unfold render_literal.
  rewrite split_into_concat.
  - clear Hne. induction Table as [|Entry Table IH]; auto.
    cbn [map flat_map]. rewrite IH by (intros e He; apply Hplain; now right).
    destruct (plain_entry_parsed Entry) as [_ ->]; [apply Hplain; now left|].
    unfold table_records. simpl. now rewrite app_nil_r.
  - destruct Table; [congruence | discriminate].
  - intros x Hx. apply in_map_iff in Hx as (Entry & <- & HE).
    now apply plain_entry_parsed, Hplain.
Qed.

Lemma fixed_parses_rendered_table_witness :
  fixed_symbols "Foo=foo.h;Bar=bar.h,bar2.h"
  = table_records [("Foo", ["foo.h"]); ("Bar", ["bar.h"; "bar2.h"])].
Proof.
  apply (fixed_parses_rendered_table
           [("Foo", ["foo.h"]); ("Bar", ["bar.h"; "bar2.h"])]).
  - discriminate.
  - intros Entry [<-|[<-|[]]]; (split; [discriminate|]);
      (split; [reflexivity|]); (split; [reflexivity|]); simpl;
      intros Header H; repeat destruct H as [<-|H]; try (split; reflexivity);
      destruct H.
Defined.

(* ===================================================================== *)
(** ** Further properties of the driver *)
(* ===================================================================== *)

(** X1: A failed read of the standard input ends the run at once: the message
    of the error and a line end on the error stream, code 1, and nothing
    loaded, run or written. *)
Theorem stdin_read_error_is_fatal (O : Options) (E : Env) (EC : error_code) :
  STDINMode O = true ->
  List.length (SourcePathList O) = 1 ->
  getSTDIN E = Err EC ->
  main O E
  = (Exit 1, mkState (message EC ++ newline)%string "" [] [] [] [ReadStdin]).
Proof.
  intros Hmode Hlen Hin.
  unfold main, includeFixerMain, stdin_block, bind, assert_.
  rewrite Hmode, Hlen, Hin. reflexivity.
Qed.

Lemma stdin_read_error_is_fatal_witness :
  main (Scenario.options fixed "Foo=foo.h" false true ["main.cc"])
       (Scenario.env (Err (mk_error_code "Bad file descriptor"))
                     Scenario.no_files Scenario.tool_ok false)
  = (Exit 1,
     mkState ("Bad file descriptor" ++ newline)%string "" [] [] [] [ReadStdin]).
Proof.
  apply (stdin_read_error_is_fatal _ _ (mk_error_code "Bad file descriptor"));
    reflexivity.
Defined.



(** X3: The replacements are applied at most once, only after a tool run that
    succeeded, and they are the ones that run collected: to the buffer of
    the standard input in [-stdin] mode, to the files otherwise. *)
Theorem edits_follow_a_successful_run (O : Options) (E : Env) :
  List.length (filter is_edit (trace (final O E))) <= 1
  /\ (forall Replaces,
        In (RewriteFiles Replaces) (trace (final O E)) ->
        STDINMode O = false
        /\ exists Invocation,
             In (ToolRun Invocation) (trace (final O E))
             /\ ExitStatus (run E Invocation) = 0%Z
             /\ Replaces = CollectedReplacements (run E Invocation))
  /\ (forall Code Replaces,
        In (ApplyToBuffer Code Replaces) (trace (final O E)) ->
        STDINMode O = true /\ getSTDIN E = Ok Code
        /\ exists Invocation,
             In (ToolRun Invocation) (trace (final O E))
             /\ ExitStatus (run E Invocation) = 0%Z
             /\ Replaces = CollectedReplacements (run E Invocation)).
Proof.
  by_paths O E.
  all: split; [cbn [filter is_edit List.length app]; auto|].
  all: split; [intros Replaces Hin | intros Code Replaces Hin]; tidy.
  all: repeat split; auto; eexists; split; [here|]; split; eauto.
Qed.

Lemma edits_follow_a_successful_run_witness :
  STDINMode (Scenario.options fixed "Foo=foo.h" false false ["main.cc"]) = false
  /\ exists Invocation,
       ExitStatus
         (run (Scenario.env (Ok "") Scenario.no_files Scenario.tool_ok false)
              Invocation) = 0%Z.
Proof.
  destruct (proj1 (proj2
    (edits_follow_a_successful_run
       (Scenario.options fixed "Foo=foo.h" false false ["main.cc"])
       (Scenario.env (Ok "") Scenario.no_files Scenario.tool_ok false)))
    [Scenario.include_a] (or_intror (or_introl eq_refl)))
    as (Hmode & Invocation & _ & Hok & _).
  split; [exact Hmode | exists Invocation; exact Hok].
Defined.



(** X5: The tool is run at most once, on all the source paths, with the
    [-style] and [-minimize-paths] options as given. *)
Theorem tool_runs_once_with_the_options (O : Options) (E : Env) :
  List.length (filter is_tool_run (trace (final O E))) <= 1
  /\ forall Invocation,
       In (ToolRun Invocation) (trace (final O E)) ->
       ToolSourcePaths Invocation = SourcePathList O
       /\ ToolStyle Invocation = Style O
       /\ ToolMinimize Invocation = MinimizeIncludePaths O.
Proof.
  by_paths O E.
  all: split; [cbn [filter is_tool_run List.length app]; auto|].
  all: intros Invocation Hin; tidy; repeat split; reflexivity.
Qed.

Lemma tool_runs_once_with_the_options_witness :
  ToolStyle
    (invocation (Scenario.options fixed "Foo=foo.h" false false ["main.cc"])
                None (InMemorySymbolIndex (fixed_symbols "Foo=foo.h")))
  = "llvm".
Proof.
  exact (proj1 (proj2 (proj2
    (tool_runs_once_with_the_options
       (Scenario.options fixed "Foo=foo.h" false false ["main.cc"])
       (Scenario.env (Ok "") Scenario.no_files Scenario.tool_ok false))
    _ (or_introl eq_refl)))).
Defined.

(** X6: No database is looked for before the [-stdin] block is passed: with a
    wrong number of source paths, an unreadable or an empty standard input,
    no file is loaded or searched. *)
Theorem database_access_follows_stdin (O : Options) (E : Env) (e : Event) :
  In e (trace (final O E)) -> is_database_access e = true ->
  DatabaseFormat O = yaml /\ passes_stdin_block O E.
Proof.
  unfold passes_stdin_block.
  by_paths O E; intros Hin He; tidy; try discriminate.
  all: split; auto.
  all: right; rewrite ?H0; split; eauto.
  all: match goal with H : SourcePathList _ = _ |- _ => now rewrite H end.
Qed.

Lemma database_access_follows_stdin_witness :
  DatabaseFormat (Scenario.options yaml "db.yaml" false false ["main.cc"]) = yaml
  /\ passes_stdin_block
       (Scenario.options yaml "db.yaml" false false ["main.cc"])
       (Scenario.env (Ok "") Scenario.no_files Scenario.tool_ok false).
Proof.
  apply (database_access_follows_stdin
           (Scenario.options yaml "db.yaml" false false ["main.cc"])
           (Scenario.env (Ok "") Scenario.no_files Scenario.tool_ok false)
           (LoadYamlFile "db.yaml")).
  - simpl. auto.
  - reflexivity.
Defined.

Lemma quiet_reports_nothing_witness :
  errs (final (Scenario.options fixed "Foo=foo.h" true false ["main.cc"])
              (Scenario.env (Ok "") Scenario.no_files Scenario.tool_ok false))
  = "".
Proof.
  apply (quiet_reports_nothing
           (Scenario.options fixed "Foo=foo.h" true false ["main.cc"])
           (Scenario.env (Ok "") Scenario.no_files Scenario.tool_ok false)
           (invocation (Scenario.options fixed "Foo=foo.h" true false ["main.cc"])
                       None (InMemorySymbolIndex (fixed_symbols "Foo=foo.h")))).
  - reflexivity.
  - simpl. auto.
  - reflexivity.
Defined.

(** Which options and which collaborators each block looks at. *)
Lemma stdin_block_quiet (O : Options) (E : Env) (BeQuiet : bool) :
  stdin_block (set_Quiet BeQuiet O) E = stdin_block O E.
Proof. reflexivity. Qed.

Lemma data_source_block_quiet (O : Options) (E : Env) (BeQuiet : bool) :
  data_source_block (set_Quiet BeQuiet O) E = data_source_block O E.
Proof. reflexivity. Qed.



Lemma run_block_quiet (O : Options) (E : Env) (BeQuiet : bool)
    (Code : option (string * string)) (s : State) :
  let a := run_block (set_Quiet BeQuiet O) E Code s in
  let b := run_block O E Code s in
  same_but_errs (outcome_of (fst a), snd a) (outcome_of (fst b), snd b).
Proof.
  cbv zeta. rewrite !run_block_spec. unfold same_but_errs, after_run.
  cbn [set_Quiet SourcePathList Style MinimizeIncludePaths STDINMode Quiet].
  destruct (negb (Z.eqb _ 0)); [repeat split|].
  destruct (STDINMode O); [destruct Code as [[File Buffer]|]|]; repeat split.
Qed.

(** X7: [-q] changes what is written to the error stream and nothing else:
    the exit code, the output stream, the index, the headers, the
    replacements and the events of the run are the same with and without. *)
Theorem quiet_changes_only_the_error_stream (O : Options) (E : Env)
    (BeQuiet : bool) :
  same_but_errs (main (set_Quiet BeQuiet O) E) (main O E).
Proof.
  unfold main, includeFixerMain, bind.
  rewrite stdin_block_quiet, data_source_block_quiet.
  destruct (stdin_block O E initial) as [[Code|code| |] s1];
    try (repeat split; fail).
  destruct (data_source_block O E s1) as [[[]|code| |] s2];
    try (repeat split; fail).
  pose proof (run_block_quiet O E BeQuiet Code s2) as H. cbv zeta in H.
  destruct (run_block (set_Quiet BeQuiet O) E Code s2) as [F' s'].
  destruct (run_block O E Code s2) as [F s]. exact H.
Qed.




